(** * VK Suggester: a shallow embedding of [vk_suggester.py]

    The development follows the class [VKSuggester]: the error-code table
    and its classifier, the retrying API client, identifier resolution,
    batched metadata lookup, photo upload, the bulk posting loop and the
    result summary.

    Conventions.
    - Python [int] is [Z]; counters and lengths are [nat].
    - A [dict] whose iteration order is observed ([resolve_group_ids]) is an
      insertion-ordered association list ([PyDict]); a [dict] that is only
      looked up or summed is a [gmap].
    - The remote service is an oracle indexed by the client's request
      counter; every remote call threads that counter and emits the
      requests, back-off sleeps and log levels it performs as a trace. *)

From stdpp Require Import gmap strings list fin_maps pretty.
From Stdlib Require Import ZArith Lia Ascii.

Open Scope Z_scope.

(** ** Data model *)

Inductive PostStatus :=
  | SUCCESS
  | WALL_DISABLED
  | SUGGEST_DISABLED
  | ACCESS_DENIED
  | NOT_MEMBER
  | RATE_LIMIT
  | AUTH_ERROR
  | CAPTCHA
  | GROUP_NOT_FOUND
  | NETWORK_ERROR
  | UNKNOWN_ERROR.

#[global] Instance PostStatus_eq_dec : EqDecision PostStatus.
Proof. solve_decision. Defined.

(** [PostStatus.value] *)
Definition status_value (s : PostStatus) : string :=
  match s with
  | SUCCESS => "success"
  | WALL_DISABLED => "wall_disabled"
  | SUGGEST_DISABLED => "suggest_disabled"
  | ACCESS_DENIED => "access_denied"
  | NOT_MEMBER => "not_member"
  | RATE_LIMIT => "rate_limit"
  | AUTH_ERROR => "auth_error"
  | CAPTCHA => "captcha"
  | GROUP_NOT_FOUND => "group_not_found"
  | NETWORK_ERROR => "network_error"
  | UNKNOWN_ERROR => "unknown_error"
  end.

Record PostResult := mkPostResult {
  group_id : Z;
  group_name : string;
  status : PostStatus;
  post_id : option Z;
  error_message : option string;
  error_code : option Z
}.

Record GroupInfo := mkGroupInfo {
  gi_group_id : Z;
  name : string;
  screen_name : string;
  can_post : bool;
  can_suggest : bool;
  is_closed : Z;
  is_member : bool
}.

(** ** Provider error codes (class constants of [VKSuggester]) *)

Definition ERROR_AUTH : Z := 5.
Definition ERROR_TOO_MANY_REQUESTS_1 : Z := 6.
Definition ERROR_FLOOD : Z := 9.
Definition ERROR_CAPTCHA : Z := 14.
Definition ERROR_ACCESS_DENIED : Z := 15.
Definition ERROR_TOO_MANY_REQUESTS_2 : Z := 29.
Definition ERROR_WALL_ACCESS_DENIED : Z := 30.
Definition ERROR_WALL_DISABLED : Z := 214.
Definition ERROR_GROUP_ACCESS_DENIED : Z := 203.

(** A dict literal: entries are stored left to right, a repeated key keeps
    the last value. *)
Definition dict_literal {V} (entries : list (Z * V)) : gmap Z V :=
  foldl (fun m kv => <[kv.1 := kv.2]> m) ∅ entries.

(** The [mapping] local of [_classify_error]. *)
Definition mapping : gmap Z PostStatus :=
  dict_literal
    [ (ERROR_AUTH, AUTH_ERROR);
      (ERROR_TOO_MANY_REQUESTS_1, RATE_LIMIT);
      (ERROR_FLOOD, RATE_LIMIT);
      (ERROR_CAPTCHA, CAPTCHA);
      (ERROR_ACCESS_DENIED, ACCESS_DENIED);
      (ERROR_TOO_MANY_REQUESTS_2, RATE_LIMIT);
      (ERROR_WALL_ACCESS_DENIED, ACCESS_DENIED);
      (ERROR_WALL_DISABLED, WALL_DISABLED);
      (ERROR_GROUP_ACCESS_DENIED, GROUP_NOT_FOUND) ].

(** [_classify_error]: [mapping.get(error_code, PostStatus.UNKNOWN_ERROR)]. *)
Definition _classify_error (error_code : Z) : PostStatus :=
  default UNKNOWN_ERROR (mapping !! error_code).

(** The classification table as the specification words it: one row per
    named code, the last row for everything else. *)
Definition classification_table (code : Z) : PostStatus :=
  if decide (code = ERROR_AUTH) then AUTH_ERROR
  else if decide (code = ERROR_TOO_MANY_REQUESTS_1
                  ∨ code = ERROR_TOO_MANY_REQUESTS_2
                  ∨ code = ERROR_FLOOD) then RATE_LIMIT
  else if decide (code = ERROR_CAPTCHA) then CAPTCHA
  else if decide (code = ERROR_ACCESS_DENIED
                  ∨ code = ERROR_WALL_ACCESS_DENIED) then ACCESS_DENIED
  else if decide (code = ERROR_WALL_DISABLED) then WALL_DISABLED
  else if decide (code = ERROR_GROUP_ACCESS_DENIED) then GROUP_NOT_FOUND
  else UNKNOWN_ERROR.

(** ** Result summary *)

Record Summary := mkSummary {
  total : nat;
  success : nat;
  failed : nat;
  by_status : gmap string nat
}.

(** One iteration of the loop of [get_results_summary]. *)
Definition summary_step (summary : Summary) (result : PostResult) : Summary :=
  let status_name := status_value (status result) in
  let by0 :=
    match by_status summary !! status_name with
    | None => <[status_name := 0%nat]> (by_status summary)
    | Some _ => by_status summary
    end in
  let by1 := <[status_name := (default 0%nat (by0 !! status_name) + 1)%nat]> by0 in
  if decide (status result = SUCCESS)
  then mkSummary (total summary) (success summary + 1) (failed summary) by1
  else mkSummary (total summary) (success summary) (failed summary + 1) by1.

Definition get_results_summary (results : list PostResult) : Summary :=
  foldl summary_step (mkSummary (length results) 0 0 ∅) results.

(** [sum(by_status.values())] *)
Definition sum_values (m : gmap string nat) : nat :=
  map_fold (fun _ v acc => (v + acc)%nat) 0%nat m.

(** ** Strings

    Identifier characters are Rocq [ascii] values read as the first 256
    code points.  On that range [str.strip], [str.lower], [int] and
    case-insensitive matching of the ASCII patterns of
    [_clean_group_identifier] behave as written below. *)

Definition ord (c : ascii) : N := N_of_ascii c.

(** [str.isspace] on one character. *)
Definition is_space (c : ascii) : bool :=
  let n := ord c in
  (((9 <=? n) && (n <=? 13)) || ((28 <=? n) && (n <=? 32))
   || (n =? 133) || (n =? 160))%N.

Fixpoint lstrip (s : string) : string :=
  match s with
  | String c rest => if is_space c then lstrip rest else s
  | EmptyString => EmptyString
  end.

Fixpoint rstrip (s : string) : string :=
  match s with
  | String c rest =>
      match rstrip rest with
      | EmptyString => if is_space c then EmptyString else String c EmptyString
      | rest' => String c rest'
      end
  | EmptyString => EmptyString
  end.

(** [str.strip()] *)
Definition strip (s : string) : string := rstrip (lstrip s).

(** [str.lower()] on one character: A-Z and the accented capitals
    U+00C0..U+00DE (except the multiplication sign U+00D7). *)
Definition lower_char (c : ascii) : ascii :=
  let n := ord c in
  if (((65 <=? n) && (n <=? 90))
      || ((192 <=? n) && (n <=? 222) && negb (n =? 215)))%N
  then ascii_of_N (n + 32) else c.

Fixpoint lower (s : string) : string :=
  match s with
  | String c rest => String (lower_char c) (lower rest)
  | EmptyString => EmptyString
  end.

(** One pattern character against one subject character under
    [re.IGNORECASE]; the patterns are ASCII, so only A-Z fold. *)
Definition fold_char (c : ascii) : ascii :=
  let n := ord c in
  if ((65 <=? n) && (n <=? 90))%N then ascii_of_N (n + 32) else c.

(** [match_literal lit s]: the rest of [s] after a case-insensitive match of
    the literal [lit] at its start. *)
Fixpoint match_literal (lit s : string) : option string :=
  match lit with
  | EmptyString => Some s
  | String p lit' =>
      match s with
      | String c s' =>
          if decide (fold_char p = fold_char c) then match_literal lit' s' else None
      | EmptyString => None
      end
  end.

(** A pattern is a list of alternative literals, tried in the order the
    regex engine tries them ([https?] tries the [s] first). *)
Fixpoint match_alternatives (alts : list string) (s : string) : option string :=
  match alts with
  | [] => None
  | lit :: alts' =>
      match match_literal lit s with
      | Some rest => Some rest
      | None => match_alternatives alts' s
      end
  end.

(** [re.sub(pattern, "", s)] for an unanchored pattern: all non-overlapping
    matches removed, scanning left to right.  The fuel is the subject
    length; every step consumes at least one character of it. *)
Fixpoint sub_all_fuel (fuel : nat) (alts : list string) (s : string) : string :=
  match fuel with
  | O => s
  | S fuel' =>
      match match_alternatives alts s with
      | Some rest => sub_all_fuel fuel' alts rest
      | None =>
          match s with
          | String c s' => String c (sub_all_fuel fuel' alts s')
          | EmptyString => EmptyString
          end
      end
  end.

Definition sub_all (alts : list string) (s : string) : string :=
  sub_all_fuel (S (String.length s)) alts s.

(** [re.sub("^lit", "", s)]: the anchor only matches at position 0. *)
Definition sub_prefix (lit : string) (s : string) : string :=
  match match_literal lit s with
  | Some rest => rest
  | None => s
  end.

(** [_clean_group_identifier] *)
Definition _clean_group_identifier (identifier : string) : string :=
  let identifier := sub_all ["https://vk.com/"; "http://vk.com/"] identifier in
  let identifier := sub_all ["https://m.vk.com/"; "http://m.vk.com/"] identifier in
  let identifier := sub_all ["vk.com/"] identifier in
  let identifier := sub_prefix "@" identifier in
  let identifier := sub_prefix "public" identifier in
  let identifier := sub_prefix "club" identifier in
  strip identifier.

Definition is_digit (c : ascii) : bool :=
  let n := ord c in ((48 <=? n) && (n <=? 57))%N.

Definition digit_value (c : ascii) : Z := Z.of_N (ord c) - 48.

Inductive digit_state := AtStart | AfterDigit | AfterUnderscore.

(** The digit part of an [int] literal: decimal digits, single underscores
    only between digits. *)
Fixpoint parse_digits (st : digit_state) (acc : Z) (s : string) : option Z :=
  match s with
  | EmptyString =>
      match st with AfterDigit => Some acc | _ => None end
  | String c rest =>
      if is_digit c then parse_digits AfterDigit (10 * acc + digit_value c) rest
      else if decide (c = "_"%char) then
        match st with
        | AfterDigit => parse_digits AfterUnderscore acc rest
        | _ => None
        end
      else None
  end.

(** [int(s)]: [Some] the value, [None] for [ValueError]. *)
Definition int (s : string) : option Z :=
  match strip s with
  | String "-" rest => Z.opp <$> parse_digits AtStart 0 rest
  | String "+" rest => parse_digits AtStart 0 rest
  | body => parse_digits AtStart 0 body
  end.

(** [str(n)] for an integer. *)
Definition str (n : Z) : string := pretty n.

(** [sep.join(parts)] *)
Fixpoint str_join (sep : string) (parts : list string) : string :=
  match parts with
  | [] => ""
  | [p] => p
  | p :: rest => p +:+ sep +:+ str_join sep rest
  end.

(** ** Insertion-ordered dictionaries *)

Module PyDict.

Definition t (V : Type) := list (string * V).

(** [d[k] = v]: an existing key keeps its position, a new key goes last. *)
Fixpoint set {V} (k : string) (v : V) (d : t V) : t V :=
  match d with
  | [] => [(k, v)]
  | (k', v') :: d' =>
      if decide (k' = k) then (k, v) :: d' else (k', v') :: set k v d'
  end.

Fixpoint get {V} (k : string) (d : t V) : option V :=
  match d with
  | [] => None
  | (k', v') :: d' => if decide (k' = k) then Some v' else get k d'
  end.

Definition keys {V} (d : t V) : list string := d.*1.
Definition values {V} (d : t V) : list V := d.*2.

End PyDict.

(** ** Exceptions, traces and the client monad *)

Inductive exn :=
  | VKApiError (code : Z) (message : string)
  | RequestException (text : string)
  | KeyError (key : string).

Inductive outcome (A : Type) : Type :=
  | Ret (a : A)
  | Raise (e : exn).
Arguments Ret {A} a.
Arguments Raise {A} e.

Inductive level := INFO | WARNING | ERROR.

(** A request parameter value. *)
Inductive value :=
  | VInt (z : Z)
  | VStr (s : string).

(** What a call does to the outside world, in order. *)
Inductive event :=
  | EvRequest (method : string) (params : list (string * value))
  | EvUpload (url filename : string) (photo_data : list Byte.byte)
  | EvSleep (seconds : Z)
  | EvLog (lv : level)
  | EvProgress (current total : nat) (result : PostResult).

(** A computation reads and advances [_request_count] and returns a value or
    raises, together with the events it produced.  The jittered spacing of
    [_wait_rate_limit] is wall-clock behaviour and is not part of the
    model; its counter update is. *)
Definition M (A : Type) : Type := nat -> outcome A * nat * list event.

Definition ret {A} (a : A) : M A := fun n => (Ret a, n, []).

Definition raise {A} (e : exn) : M A := fun n => (Raise e, n, []).

Definition bind {A B} (m : M A) (f : A -> M B) : M B := fun n =>
  match m n with
  | (Ret a, n1, t1) =>
      match f a n1 with
      | (r, n2, t2) => (r, n2, t1 ++ t2)
      end
  | (Raise e, n1, t1) => (Raise e, n1, t1)
  end.

Notation "'do' x <- m ; k" := (bind m (fun x => k))
  (at level 10, x name, m at level 100, k at level 200).
Notation "'do_' m ; k" := (bind m (fun _ => k))
  (at level 10, m at level 100, k at level 200).

Definition emit (e : event) : M unit := fun n => (Ret tt, n, [e]).

(** [self._log(message, level)]; the message text is not recorded. *)
Definition _log (lv : level) : M unit := emit (EvLog lv).

(** [time.sleep(seconds)] of the retry back-off. *)
Definition sleep (seconds : Z) : M unit := emit (EvSleep seconds).

(** [_wait_rate_limit]: [self._request_count += 1]. *)
Definition _wait_rate_limit : M unit := fun n => (Ret tt, S n, []).

(** [try: body  except VKApiError as e: handler] *)
Definition try_except_VKApiError {A} (body : M A)
    (handler : Z -> string -> M A) : M A := fun n =>
  match body n with
  | (Raise (VKApiError c msg), n1, t1) =>
      match handler c msg n1 with
      | (r, n2, t2) => (r, n2, t1 ++ t2)
      end
  | other => other
  end.

(** [try: body  except Exception as e: handler] *)
Definition try_except_Exception {A} (body : M A)
    (handler : exn -> M A) : M A := fun n =>
  match body n with
  | (Raise e, n1, t1) =>
      match handler e n1 with
      | (r, n2, t2) => (r, n2, t1 ++ t2)
      end
  | other => other
  end.

Definition result_of {A} (x : outcome A * nat * list event) : outcome A := x.1.1.
Definition count_of {A} (x : outcome A * nat * list event) : nat := x.1.2.
Definition trace_of {A} (x : outcome A * nat * list event) : list event := x.2.

(** ** The remote service *)

(** What one HTTP attempt of [_api_request] can come back with. *)
Inductive HttpOutcome (A : Type) : Type :=
  | TransportFailure (text : string)
      (* [post], [raise_for_status] or [json] raised [RequestException] *)
  | ProviderError (error_code : option Z) (error_msg : option string)
      (* the body has an ["error"] object; both fields may be absent *)
  | Response (payload : A).
      (* [data.get("response", {})] *)
Arguments TransportFailure {A} text.
Arguments ProviderError {A} error_code error_msg.
Arguments Response {A} payload.

(** One element of a [groups.getById] answer. *)
Record GroupJson := mkGroupJson {
  g_id : Z;
  g_name : option string;
  g_screen_name : option string;
  g_can_post : option Z;
  g_can_suggest : option Z;
  g_is_closed : option Z;
  g_is_member : option Z
}.

(** A [groups.getById] answer: a bare list, a dict with a list under
    ["groups"], or a dict without one (the empty dict included). *)
Inductive GroupsPayload :=
  | GroupsBare (groups : list GroupJson)
  | GroupsWrapped (groups : list GroupJson)
  | GroupsOther.

(** A [wall.post] answer: a dict, [post_id] possibly absent. *)
Record PostPayload := mkPostPayload { r_post_id : option Z }.

(** A [photos.getWallUploadServer] answer. *)
Record UploadServerPayload := mkUploadServerPayload { upload_url : option string }.

(** The JSON body the upload host sends back. *)
Record UploadResult := mkUploadResult {
  u_photo : option string;
  u_server : option Z;
  u_hash : option string
}.

Inductive UploadOutcome :=
  | UploadFailed (text : string)
  | UploadJson (body : UploadResult).

(** One element of a [photos.saveWallPhoto] answer. *)
Record PhotoJson := mkPhotoJson {
  p_owner_id : option Z;
  p_id : option Z;
  p_access_key : option string
}.

(** The service answers the [n]-th request of the client ([n] is
    [_request_count] when the request is sent); [uuid4] is the source of
    fresh tokens. *)
Record Server := mkServer {
  groups_getById : nat -> HttpOutcome GroupsPayload;
  wall_post : nat -> HttpOutcome PostPayload;
  photos_getWallUploadServer : nat -> HttpOutcome UploadServerPayload;
  photos_saveWallPhoto : nat -> HttpOutcome (list PhotoJson);
  upload_host : nat -> UploadOutcome;
  uuid4 : nat -> string
}.

Definition API_VERSION : string := "5.131".

(** ** The API client *)

Section Client.

Context (access_token : string) (srv : Server).

(** [self._session.post(f"{BASE_URL}/{method}", data=params, timeout=30)]
    followed by [raise_for_status] and [json]. *)
Definition session_post {A} (endpoint : nat -> HttpOutcome A)
    (method : string) (params : list (string * value)) : M (HttpOutcome A) :=
  fun n => (Ret (endpoint n), n, [EvRequest method params]).

(** [error_code in (ERROR_TOO_MANY_REQUESTS_1, ERROR_TOO_MANY_REQUESTS_2,
    ERROR_FLOOD)] *)
Definition is_throttling (error_code : Z) : bool :=
  bool_decide (error_code = ERROR_TOO_MANY_REQUESTS_1)
  || bool_decide (error_code = ERROR_TOO_MANY_REQUESTS_2)
  || bool_decide (error_code = ERROR_FLOOD).

(** The [for attempt in range(retry_count)] loop of [_api_request], from
    iteration [attempt] with [remaining] iterations left; the statement
    after the loop is the [O] case. *)
Fixpoint attempts {A} (endpoint : nat -> HttpOutcome A) (method : string)
    (params : list (string * value)) (retry_count : nat)
    (attempt remaining : nat) : M A :=
  match remaining with
  | O => raise (VKApiError (-1) "Превышено количество попыток")
  | S remaining' =>
      do_ _wait_rate_limit;
      do data <- session_post endpoint method params;
      match data with
      | ProviderError code msg =>
          let error_code := default 0 code in
          let error_msg := default "Unknown error" msg in
          if is_throttling error_code
             && bool_decide (Z.of_nat attempt < Z.of_nat retry_count - 1)
          then
            let wait_time := (Z.of_nat attempt + 1) * 2 in
            do_ _log WARNING;
            do_ sleep wait_time;
            attempts endpoint method params retry_count (S attempt) remaining'
          else raise (VKApiError error_code error_msg)
      | Response payload => ret payload
      | TransportFailure e =>
          if bool_decide (Z.of_nat attempt < Z.of_nat retry_count - 1)
          then
            do_ _log WARNING;
            do_ sleep 2;
            attempts endpoint method params retry_count (S attempt) remaining'
          else raise (VKApiError (-1) ("Сетевая ошибка: " +:+ e))
      end
  end.

(** [_api_request(method, params, retry_count)] *)
Definition _api_request_with {A} (endpoint : nat -> HttpOutcome A)
    (method : string) (params : list (string * value))
    (retry_count : nat) : M A :=
  let params := params ++ [("access_token", VStr access_token); ("v", VStr API_VERSION)] in
  attempts endpoint method params retry_count 0 retry_count.

(** [_api_request(method, params)] with the default [retry_count = 3]. *)
Definition _api_request {A} (endpoint : nat -> HttpOutcome A)
    (method : string) (params : list (string * value)) : M A :=
  _api_request_with endpoint method params 3.

(** ** Identifier resolution *)

(** The first loop of [resolve_group_ids]: numeric identifiers go into
    [result] at once, the others are queued in [to_resolve]. *)
Definition resolve_step (acc : PyDict.t Z * list string) (identifier : string)
    : PyDict.t Z * list string :=
  let '(result, to_resolve) := acc in
  let identifier := strip identifier in
  if decide (identifier = "") then (result, to_resolve)
  else
    let identifier := _clean_group_identifier identifier in
    match int identifier with
    | Some gid => (PyDict.set identifier (Z.abs gid) result, to_resolve)
    | None => (result, to_resolve ++ [identifier])
    end.

Definition resolve_local (group_identifiers : list string)
    : PyDict.t Z * list string :=
  foldl resolve_step ([], []) group_identifiers.

(** [range(0, stop, step)] *)
Definition range_step (stop step : nat) : list nat :=
  (fun k => k * step)%nat <$> seq 0 ((stop + step - 1) / step)%nat.

(** [for i in range(0, len(l), size): batch = l[i:i+size]] *)
Definition batches {A} (size : nat) (l : list A) : list (list A) :=
  (fun i => take size (drop i l)) <$> range_step (length l) size.

(** [response.get("groups", response) if isinstance(response, dict) else
    response], kept when it is a list. *)
Definition groups_list (response : GroupsPayload) : option (list GroupJson) :=
  match response with
  | GroupsBare groups => Some groups
  | GroupsWrapped groups => Some groups
  | GroupsOther => None
  end.

(** [for orig in batch: if ...: result[orig] = group["id"]; break] *)
Fixpoint match_group (group : GroupJson) (batch : list string)
    (result : PyDict.t Z) : PyDict.t Z :=
  match batch with
  | [] => result
  | orig :: rest =>
      let screen_name := default "" (g_screen_name group) in
      if bool_decide (lower orig = lower screen_name)
         || bool_decide (str (g_id group) = orig)
      then PyDict.set orig (g_id group) result
      else match_group group rest result
  end.

Definition match_groups (groups : list GroupJson) (batch : list string)
    (result : PyDict.t Z) : PyDict.t Z :=
  foldl (fun result group => match_group group batch result) result groups.

(** The second loop of [resolve_group_ids], one lookup per batch. *)
Fixpoint resolve_batches (bs : list (list string)) (result : PyDict.t Z)
    : M (PyDict.t Z) :=
  match bs with
  | [] => ret result
  | batch :: rest =>
      do result <-
        try_except_VKApiError
          (do response <- _api_request (groups_getById srv) "groups.getById"
                            [("group_ids", VStr (str_join "," batch))];
           match groups_list response with
           | Some groups => ret (match_groups groups batch result)
           | None => ret result
           end)
          (fun _ _ => do_ _log WARNING; ret result);
      resolve_batches rest result
  end.

Definition resolve_group_ids (group_identifiers : list string)
    : M (PyDict.t Z) :=
  let '(result, to_resolve) := resolve_local group_identifiers in
  resolve_batches (batches 25 to_resolve) result.

(** ** Metadata lookup *)

Definition default_name (gid : Z) : string := "Группа " +:+ str gid.

(** The [GroupInfo(...)] built from one answered group. *)
Definition group_info_of (group : GroupJson) : GroupInfo :=
  let gid := g_id group in
  {| gi_group_id := gid;
     name := default (default_name gid) (g_name group);
     screen_name := default (str gid) (g_screen_name group);
     can_post := bool_decide (default 0 (g_can_post group) = 1);
     can_suggest := bool_decide (default 0 (g_can_suggest group) = 1);
     is_closed := default 0 (g_is_closed group);
     is_member := bool_decide (default 0 (g_is_member group) = 1) |}.

(** The stub [GroupInfo(group_id=gid, name=..., screen_name=str(gid))];
    the other fields take the dataclass defaults. *)
Definition placeholder (gid : Z) : GroupInfo :=
  {| gi_group_id := gid;
     name := default_name gid;
     screen_name := str gid;
     can_post := false;
     can_suggest := false;
     is_closed := 0;
     is_member := false |}.

Definition store_groups (groups : list GroupJson)
    (result : gmap Z GroupInfo) : gmap Z GroupInfo :=
  foldl (fun result group => <[g_id group := group_info_of group]> result)
        result groups.

(** [for gid in batch: if gid not in result: result[gid] = stub] *)
Definition store_placeholders (batch : list Z)
    (result : gmap Z GroupInfo) : gmap Z GroupInfo :=
  foldl (fun result gid =>
           match result !! gid with
           | Some _ => result
           | None => <[gid := placeholder gid]> result
           end)
        result batch.

(** The body of the batch loop of [get_groups_info]. *)
Definition fetch_batch (batch : list Z) (result : gmap Z GroupInfo)
    : M (gmap Z GroupInfo) :=
  try_except_VKApiError
    (do response <- _api_request (groups_getById srv) "groups.getById"
                      [("group_ids", VStr (str_join "," (str <$> batch)));
                       ("fields", VStr "can_post,can_suggest,is_closed,is_member,wall")];
     match groups_list response with
     | Some groups => ret (store_groups groups result)
     | None => ret result
     end)
    (fun _ _ => do_ _log WARNING; ret (store_placeholders batch result)).

Fixpoint fetch_batches (bs : list (list Z)) (result : gmap Z GroupInfo)
    : M (gmap Z GroupInfo) :=
  match bs with
  | [] => ret result
  | batch :: rest =>
      do result <- fetch_batch batch result;
      fetch_batches rest result
  end.

Definition get_groups_info (group_ids : list Z) : M (gmap Z GroupInfo) :=
  fetch_batches (batches 500 group_ids) ∅.

(** ** Photo upload *)

(** [d[key]]: [KeyError] when the key is absent. *)
Definition subscript {A} (key : string) (field : option A) : M A :=
  match field with
  | Some v => ret v
  | None => raise (KeyError key)
  end.

(** [self._session.post(upload_url, files=..., timeout=60)] followed by
    [raise_for_status] and [json]. *)
Definition upload_post (url filename : string) (photo_data : list Byte.byte)
    : M UploadResult := fun n =>
  match upload_host srv n with
  | UploadFailed text =>
      (Raise (RequestException text), n, [EvUpload url filename photo_data])
  | UploadJson body => (Ret body, n, [EvUpload url filename photo_data])
  end.

(** Truth value of an optional string: absent and empty are false. *)
Definition truthy (s : option string) : bool :=
  match s with
  | Some s => negb (bool_decide (s = ""))
  | None => false
  end.

Definition upload_photo (photo_data : list Byte.byte) (filename : string)
    : M (option string) :=
  try_except_Exception
    (do upload_server <- _api_request (photos_getWallUploadServer srv)
                           "photos.getWallUploadServer" [];
     if negb (truthy (upload_url upload_server))
     then do_ _log ERROR; ret None
     else
       do_ _wait_rate_limit;
       do upload_result <-
         upload_post (default "" (upload_url upload_server)) filename photo_data;
       if negb (truthy (u_photo upload_result))
          || bool_decide (u_photo upload_result = Some "[]")
       then do_ _log ERROR; ret None
       else
         do photo <- subscript "photo" (u_photo upload_result);
         do server <- subscript "server" (u_server upload_result);
         do hash <- subscript "hash" (u_hash upload_result);
         do save_result <-
           _api_request (photos_saveWallPhoto srv) "photos.saveWallPhoto"
             [("photo", VStr photo); ("server", VInt server); ("hash", VStr hash)];
         match save_result with
         | photo :: _ =>
             do owner_id <- subscript "owner_id" (p_owner_id photo);
             do photo_id <- subscript "id" (p_id photo);
             let access_key := default "" (p_access_key photo) in
             if negb (bool_decide (access_key = ""))
             then ret (Some ("photo" +:+ str owner_id +:+ "_" +:+ str photo_id
                             +:+ "_" +:+ access_key))
             else ret (Some ("photo" +:+ str owner_id +:+ "_" +:+ str photo_id))
         | [] => ret None
         end)
    (fun _ => do_ _log ERROR; ret None).

(** ** Posting *)

Definition post_to_suggestion (group_id : Z) (group_name message : string)
    (attachments : option string) : M PostResult :=
  do guid <- (fun n => (Ret (uuid4 srv n), n, []));
  let params :=
    [("owner_id", VInt (- group_id)); ("message", VStr message);
     ("from_group", VInt 0); ("guid", VStr guid)] in
  let params :=
    if truthy attachments
    then params ++ [("attachments", VStr (default "" attachments))]
    else params in
  try_except_VKApiError
    (do response <- _api_request (wall_post srv) "wall.post" params;
     match r_post_id response with
     | Some post_id =>
         if bool_decide (post_id ≠ 0)
         then ret (mkPostResult group_id group_name SUCCESS (Some post_id) None None)
         else ret (mkPostResult group_id group_name UNKNOWN_ERROR None
                     (Some "Не получен post_id") None)
     | None =>
         ret (mkPostResult group_id group_name UNKNOWN_ERROR None
                (Some "Не получен post_id") None)
     end)
    (fun code message =>
       let status := _classify_error code in
       ret (mkPostResult group_id group_name status None (Some message) (Some code))).

(** The [for i, (identifier, gid) in enumerate(resolved.items())] loop of
    [process_groups], from index [i] with [results] collected so far. *)
Fixpoint dispatch (groups_info : gmap Z GroupInfo) (total : nat)
    (message : string) (attachments : option string)
    (on_progress stop_on_auth_error : bool)
    (items : list (string * Z)) (i : nat) (results : list PostResult)
    : M (list PostResult) :=
  match items with
  | [] => ret results
  | (identifier, gid) :: rest =>
      let info := groups_info !! gid in
      let group_name :=
        match info with Some info => name info | None => default_name gid end in
      let continue (result : PostResult) :=
        let results := results ++ [result] in
        do_ (if on_progress then emit (EvProgress (i + 1) total result) else ret tt);
        dispatch groups_info total message attachments on_progress
                 stop_on_auth_error rest (S i) results in
      let closed :=
        match info with
        | Some info => negb (can_suggest info) && negb (can_post info)
        | None => false
        end in
      if closed then
          let result :=
            mkPostResult gid group_name SUGGEST_DISABLED None
              (Some "Предложка/стена закрыта") None in
          do_ _log WARNING;
          continue result
      else
          do_ _log INFO;
          do result <- post_to_suggestion gid group_name message attachments;
          do_ (if decide (status result = SUCCESS) then _log INFO else _log WARNING);
          if stop_on_auth_error && bool_decide (status result = AUTH_ERROR)
          then
            do_ _log ERROR;
            ret (results ++ [result])
          else continue result
  end.

Definition process_groups (group_identifiers : list string) (message : string)
    (attachments : option string) (on_progress stop_on_auth_error : bool)
    : M (list PostResult) :=
  let results := [] in
  do_ _log INFO;
  do resolved <- resolve_group_ids group_identifiers;
  match resolved with
  | [] => do_ _log ERROR; ret results
  | _ =>
      do_ _log INFO;
      let group_ids := PyDict.values resolved in
      do_ _log INFO;
      do groups_info <- get_groups_info group_ids;
      let total := length group_ids in
      dispatch groups_info total message attachments on_progress
               stop_on_auth_error resolved 0 results
  end.

End Client.

(** ** Observations on traces *)

(** Number of HTTP requests to the API in a trace. *)
Definition is_request (e : event) : bool :=
  match e with EvRequest _ _ => true | _ => false end.

Definition requests (t : list event) : nat :=
  length (List.filter is_request t).

(** An attempt whose answer makes [_api_request] go round again when it is
    not the last one: a throttling code or a transport failure. *)
Definition retried {A} (o : HttpOutcome A) : bool :=
  match o with
  | ProviderError code _ => is_throttling (default 0 code)
  | TransportFailure _ => true
  | Response _ => false
  end.

(** A [wall.post] request addressed to community [gid]. *)
Definition is_submission (gid : Z) (e : event) : Prop :=
  match e with
  | EvRequest method params =>
      method = "wall.post" /\ PyDict.get "owner_id" params = Some (VInt (- gid))
  | _ => False
  end.

(** ** Sample services

    Concrete oracles on which the statements below are exercised. *)

(** A service that drops the first attempt and rejects the second with the
    auth-failure code. *)
Definition flaky_then_auth : nat -> HttpOutcome PostPayload := fun n =>
  match n with
  | 1%nat => TransportFailure "timeout"
  | _ => ProviderError (Some ERROR_AUTH) (Some "User authorization failed")
  end.

(** The outcome of running [m] from counter [n] satisfies [Q]. *)
Definition wp {A} (m : M A) (n : nat)
    (Q : outcome A -> nat -> list event -> Prop) : Prop :=
  Q (result_of (m n)) (count_of (m n)) (trace_of (m n)).

(** The events one [_api_request] may produce. *)
Definition api_event (method : string) (params : list (string * value))
    (e : event) : Prop :=
  match e with
  | EvRequest method' params' => method' = method /\ params' = params
  | EvLog _ | EvSleep _ => True
  | _ => False
  end.

(** What [_api_request] hands back: an answer the service gave to one of
    the requests just made, or a [VKApiError]. *)
Definition api_result {A} (endpoint : nat -> HttpOutcome A) (n : nat)
    (r : outcome A) (n' : nat) : Prop :=
  match r with
  | Ret payload => exists m, (n < m <= n')%nat /\ endpoint m = Response payload
  | Raise (VKApiError _ _) => True
  | Raise _ => False
  end.

(** [params] as [_api_request] sends them. *)
Definition with_credentials (access_token : string)
    (params : list (string * value)) : list (string * value) :=
  params ++ [("access_token", VStr access_token); ("v", VStr API_VERSION)].

(** ** Observations on the posting loop *)

(** The metadata says neither posting nor suggesting is allowed. *)
Definition closed (groups_info : gmap Z GroupInfo) (gid : Z) : Prop :=
  exists info, groups_info !! gid = Some info
               /\ can_post info = false /\ can_suggest info = false.

(** A status other than the two members of [PostStatus] nothing assigns. *)
Definition used_status (r : PostResult) : Prop :=
  status r <> NOT_MEMBER /\ status r <> NETWORK_ERROR.


(** What the loop of [process_groups] guarantees about the results [new] it
    adds for [items] and about its trace [t]. *)
Definition dispatch_post (groups_info : gmap Z GroupInfo)
    (stop_on_auth_error : bool) (items : list (string * Z))
    (new : list PostResult) (t : list event) : Prop :=
  (length new <= length items)%nat
  /\ (stop_on_auth_error = false -> length new = length items)
  /\ (forall j identifier gid,
        items !! j = Some (identifier, gid) -> (j < length new)%nat ->
        exists res, new !! j = Some res /\ group_id res = gid
                    /\ (closed groups_info gid -> status res = SUGGEST_DISABLED))
  /\ Forall used_status new
  /\ (stop_on_auth_error = true ->
      forall j res, new !! j = Some res -> status res = AUTH_ERROR ->
                    length new = S j)
  /\ (forall gid, closed groups_info gid ->
                  Forall (fun e => ~ is_submission gid e) t).







(** ** Observations on identifier resolution *)

(** An identifier as the first loop of [resolve_group_ids] sees it. *)
Definition normalize (identifier : string) : string :=
  _clean_group_identifier (strip identifier).

Definition is_numeric (identifier : string) : bool :=
  match int identifier with Some _ => true | None => false end.

(** The elements of a list in order of first occurrence. *)
Fixpoint first_occurrences (seen l : list string) : list string :=
  match l with
  | [] => []
  | x :: l =>
      if decide (x ∈ seen) then first_occurrences seen l
      else x :: first_occurrences (x :: seen) l
  end.

(** The numeric identifiers of an input list, normalized, in input order. *)
Definition numeric_inputs (group_identifiers : list string) : list string :=
  first_occurrences []
    (List.filter is_numeric
       (normalize <$> List.filter (fun s => negb (bool_decide (strip s = "")))
                        group_identifiers)).

(** A trace without any [wall.post] request. *)
Definition no_submission (t : list event) : Prop :=
  Forall (fun e => forall g, ~ is_submission g e) t.

(** What the second loop may do to [result]: add keys of [pool] after the
    existing ones, and leave every key outside [pool] alone. *)
Definition extends (pool : list string) (result result' : PyDict.t Z) : Prop :=
  (exists added, PyDict.keys result' = PyDict.keys result ++ added
                 /\ Forall (fun k => k ∈ pool) added)
  /\ (forall k, k ∉ pool -> PyDict.get k result' = PyDict.get k result).


(** Position of the first occurrence of [k] in [l]. *)
Definition first_index (k : string) (l : list string) : option nat :=
  fst <$> list_find (fun x => x = k) l.

(** The order of the keys of [resolved] follows the order in which the
    identifiers they come from appear in the input. *)
Definition input_order_kept (group_identifiers : list string)
    (resolved : PyDict.t Z) : Prop :=
  forall i j ki kj,
    PyDict.keys resolved !! i = Some ki ->
    PyDict.keys resolved !! j = Some kj ->
    (i < j)%nat ->
    exists i' j',
      first_index ki (normalize <$> group_identifiers) = Some i'
      /\ first_index kj (normalize <$> group_identifiers) = Some j'
      /\ (i' < j')%nat.

(** A service that knows the handle [durov] as community 777. *)
Definition handle_service : Server :=
  {| groups_getById := fun _ =>
       Response (GroupsBare [mkGroupJson 777 (Some "Durov") (Some "durov")
                               (Some 1) (Some 1) None None]);
     wall_post := fun _ => Response (mkPostPayload (Some 42));
     photos_getWallUploadServer := fun _ => Response (mkUploadServerPayload None);
     photos_saveWallPhoto := fun _ => Response [];
     upload_host := fun _ => UploadFailed "unreachable";
     uuid4 := fun _ => "00000000-0000-4000-8000-000000000000" |}.

(** ** Observations on the metadata lookup *)

(** The lookup call [get_groups_info] makes for one batch. *)
Definition groups_lookup (access_token : string) (srv : Server)
    (batch : list Z) : M GroupsPayload :=
  _api_request access_token (groups_getById srv) "groups.getById"
    [("group_ids", VStr (str_join "," (str <$> batch)));
     ("fields", VStr "can_post,can_suggest,is_closed,is_member,wall")].

(** The answer [payload] has an entry for community [gid]. *)
Definition carried (gid : Z) (payload : GroupsPayload) : Prop :=
  exists groups, groups_list payload = Some groups /\ gid ∈ g_id <$> groups.

(** No successful lookup answered after request [n] has an entry for [gid]. *)
Definition never_carried (srv : Server) (n : nat) (gid : Z) : Prop :=
  forall m payload,
    (n < m)%nat -> groups_getById srv m = Response payload ->
    ~ carried gid payload.


(** A service whose first lookup fails and whose second lookup answers with
    an open community 7. *)
Definition late_answer_service : Server :=
  {| groups_getById := fun n =>
       match n with
       | 1%nat => ProviderError (Some 100) (Some "One of the parameters is invalid")
       | _ => Response (GroupsWrapped [mkGroupJson 7 (Some "Seven") (Some "seven")
                                         (Some 1) (Some 1) (Some 0) (Some 1)])
       end;
     wall_post := fun _ => Response (mkPostPayload (Some 42));
     photos_getWallUploadServer := fun _ => Response (mkUploadServerPayload None);
     photos_saveWallPhoto := fun _ => Response [];
     upload_host := fun _ => UploadFailed "unreachable";
     uuid4 := fun _ => "00000000-0000-4000-8000-000000000000" |}.

(** ** Observations on the photo upload *)

(** The first and the last API call of [upload_photo]. *)
Definition upload_server_call (access_token : string) (srv : Server)
    : M UploadServerPayload :=
  _api_request access_token (photos_getWallUploadServer srv)
    "photos.getWallUploadServer" [].

Definition save_photo_call (access_token : string) (srv : Server)
    (photo : string) (server : Z) (hash : string) : M (list PhotoJson) :=
  _api_request access_token (photos_saveWallPhoto srv) "photos.saveWallPhoto"
    [("photo", VStr photo); ("server", VInt server); ("hash", VStr hash)].

(** The attachment token as the specification words it:
    [photo{owner_id}_{photo_id}], with [_{access_key}] appended when an
    access key is present. *)
Definition photo_token (owner_id photo_id : Z) (access_key : option string)
    : string :=
  match access_key with
  | Some key =>
      if decide (key = "") then "photo" +:+ str owner_id +:+ "_" +:+ str photo_id
      else "photo" +:+ str owner_id +:+ "_" +:+ str photo_id +:+ "_" +:+ key
  | None => "photo" +:+ str owner_id +:+ "_" +:+ str photo_id
  end.

(** Number of results with status [s]. *)
Definition count_status (s : PostStatus) (results : list PostResult) : nat :=
  length (List.filter (fun r => bool_decide (status r = s)) results).

(** * Properties *)

(** ** Error classification *)

Lemma mapping_lookup (code : Z) :
  mapping !! code =
    if decide (code = ERROR_GROUP_ACCESS_DENIED) then Some GROUP_NOT_FOUND
    else if decide (code = ERROR_WALL_DISABLED) then Some WALL_DISABLED
    else if decide (code = ERROR_WALL_ACCESS_DENIED) then Some ACCESS_DENIED
    else if decide (code = ERROR_TOO_MANY_REQUESTS_2) then Some RATE_LIMIT
    else if decide (code = ERROR_ACCESS_DENIED) then Some ACCESS_DENIED
    else if decide (code = ERROR_CAPTCHA) then Some CAPTCHA
    else if decide (code = ERROR_FLOOD) then Some RATE_LIMIT
    else if decide (code = ERROR_TOO_MANY_REQUESTS_1) then Some RATE_LIMIT
    else if decide (code = ERROR_AUTH) then Some AUTH_ERROR
    else None.
Proof.
  unfold mapping, dict_literal; cbn [foldl fst snd].
  repeat
    match goal with
    | |- <[?k := _]> _ !! _ = (if decide (_ = ?k) then _ else _) =>
        destruct (decide (code = k)) as [->|Hne];
        [ by rewrite lookup_insert_eq
        | rewrite lookup_insert_ne by (intros Heq; apply Hne; by rewrite Heq);
          clear Hne ]
    end.
  apply lookup_empty.
Qed.

(** C1. Every provider code is classified by the fixed table: the
    auth-failure code as [AUTH_ERROR], the two throttling codes and the
    flood code as [RATE_LIMIT], the captcha code as [CAPTCHA], the two
    access-denied codes as [ACCESS_DENIED], the wall-disabled code as
    [WALL_DISABLED], the group-access-denied code as [GROUP_NOT_FOUND], and
    every other code as [UNKNOWN_ERROR]; the classifier is a total
    function, so each code gets exactly one status. *)
Theorem classify_error_table (code : Z) :
  _classify_error code = classification_table code.
Proof.
  unfold _classify_error, classification_table.
  rewrite mapping_lookup.
  unfold ERROR_AUTH, ERROR_TOO_MANY_REQUESTS_1, ERROR_FLOOD, ERROR_CAPTCHA,
    ERROR_ACCESS_DENIED, ERROR_TOO_MANY_REQUESTS_2, ERROR_WALL_ACCESS_DENIED,
    ERROR_WALL_DISABLED, ERROR_GROUP_ACCESS_DENIED.
  repeat case_decide; try reflexivity; exfalso; lia.
Qed.

(** ** Result summary *)

Lemma sum_values_insert_fresh (m : gmap string nat) (k : string) (v : nat) :
  m !! k = None -> sum_values (<[k := v]> m) = (v + sum_values m)%nat.
Proof.
  intros Hk. unfold sum_values.
  apply (map_fold_insert_L (fun _ v acc => (v + acc)%nat)); [|exact Hk].
  intros; lia.
Qed.

Lemma sum_values_insert_present (m : gmap string nat) (k : string) (v w : nat) :
  m !! k = Some w ->
  (sum_values (<[k := v]> m) + w = v + sum_values m)%nat.
Proof.
  intros Hk.
  rewrite <- (insert_delete_id m k w Hk) at 2.
  rewrite <- (insert_delete_eq m k v).
  rewrite !sum_values_insert_fresh by apply lookup_delete_eq.
  lia.
Qed.

Lemma summary_step_by_status (s : Summary) (r : PostResult) :
  sum_values (by_status (summary_step s r)) = S (sum_values (by_status s)).
Proof.
  unfold summary_step.
  set (k := status_value (status r)).
  assert (Hby : forall by1 a b c,
    by_status (if decide (status r = SUCCESS) then mkSummary a b c by1
               else mkSummary a b (c + 1) by1) = by1
    /\ by_status (if decide (status r = SUCCESS) then mkSummary a (b + 1) c by1
                  else mkSummary a b (c + 1) by1) = by1).
  { intros; case_decide; done. }
  rewrite (proj2 (Hby _ _ _ _)). clear Hby.
  destruct (by_status s !! k) as [w|] eqn:Hk.
  - rewrite Hk. cbn [default from_option id].
    pose proof (sum_values_insert_present _ _ (w + 1)%nat _ Hk). lia.
  - rewrite lookup_insert_eq. cbn [default from_option id].
    rewrite insert_insert_eq.
    rewrite sum_values_insert_fresh by exact Hk. lia.
Qed.

Lemma summary_step_counts (s : Summary) (r : PostResult) :
  total (summary_step s r) = total s
  /\ (success (summary_step s r) + failed (summary_step s r)
      = S (success s + failed s))%nat.
Proof. unfold summary_step; case_decide; cbn; lia. Qed.

Lemma summary_fold_invariant (results : list PostResult) (s : Summary) :
  let s' := foldl summary_step s results in
  total s' = total s
  /\ (success s' + failed s' = success s + failed s + length results)%nat
  /\ (sum_values (by_status s')
      = sum_values (by_status s) + length results)%nat.
Proof.
  revert s; induction results as [|r results IH]; intros s; cbn [foldl length].
  - cbn; lia.
  - destruct (IH (summary_step s r)) as (Ht & Hc & Hs).
    destruct (summary_step_counts s r) as [Ht1 Hc1].
    pose proof (summary_step_by_status s r) as Hs1.
    cbn zeta in *. lia.
Qed.

(** C9. For every result list the summary satisfies
    [sum(by_status.values()) == total == success + failed], and [total] is
    the length of the list. *)
Theorem summary_totals_agree (results : list PostResult) :
  let summary := get_results_summary results in
  sum_values (by_status summary) = total summary
  /\ total summary = (success summary + failed summary)%nat
  /\ total summary = length results.
Proof.
  destruct (summary_fold_invariant results (mkSummary (length results) 0 0 ∅))
    as (Ht & Hc & Hs).
  cbn zeta in *. unfold get_results_summary.
  assert (sum_values (∅ : gmap string nat) = 0%nat) as H0
    by apply map_fold_empty.
  cbn [total success failed by_status] in *. lia.
Qed.

(** ** The retry policy of the API client *)

Section ApiRequest.

Context (access_token : string) {A : Type}.
Context (endpoint : nat -> HttpOutcome A) (method : string).
Context (params : list (string * value)).

Lemma requests_app (t1 t2 : list event) :
  requests (t1 ++ t2) = (requests t1 + requests t2)%nat.
Proof. unfold requests. by rewrite List.filter_app, length_app. Qed.

Lemma requests_cons (e : event) (t : list event) :
  requests (e :: t) = ((if is_request e then 1 else 0) + requests t)%nat.
Proof. unfold requests. cbn [List.filter]. by destruct (is_request e). Qed.

(** One iteration of the attempt loop, as an equation. *)
Lemma attempts_step (retry_count attempt remaining n : nat) :
  attempts endpoint method params retry_count attempt (S remaining) n =
    let last := negb (bool_decide (Z.of_nat attempt < Z.of_nat retry_count - 1)) in
    let again := attempts endpoint method params retry_count (S attempt) remaining (S n) in
    match endpoint (S n) with
    | Response payload => (Ret payload, S n, [EvRequest method params])
    | ProviderError code msg =>
        if is_throttling (default 0 code) && negb last
        then (result_of again, count_of again,
              EvRequest method params :: EvLog WARNING
                :: EvSleep ((Z.of_nat attempt + 1) * 2) :: trace_of again)
        else (Raise (VKApiError (default 0 code) (default "Unknown error" msg)),
              S n, [EvRequest method params])
    | TransportFailure e =>
        if negb last
        then (result_of again, count_of again,
              EvRequest method params :: EvLog WARNING :: EvSleep 2 :: trace_of again)
        else (Raise (VKApiError (-1) ("Сетевая ошибка: " +:+ e)),
              S n, [EvRequest method params])
    end.
Proof.
  cbn [attempts]. unfold bind, _wait_rate_limit, session_post, _log, sleep, emit.
  cbn zeta.
  destruct (endpoint (S n)) as [e|code msg|payload]; cbn [app]; try reflexivity.
  - destruct (bool_decide _); cbn [negb]; [|reflexivity].
    destruct (attempts _ _ _ _ _ _ _) as [[r c] t]. reflexivity.
  - destruct (is_throttling _); cbn [andb]; [|reflexivity].
    destruct (bool_decide _); cbn [negb]; [|reflexivity].
    destruct (attempts _ _ _ _ _ _ _) as [[r c] t]. reflexivity.
Qed.

(** The loop never raises anything but [VKApiError], sends at most
    [remaining] requests and advances the counter once per request. *)
Lemma attempts_shape (retry_count remaining attempt n : nat) :
  let run := attempts endpoint method params retry_count attempt remaining n in
  (exists payload, result_of run = Ret payload) \/
  (exists code msg, result_of run = Raise (VKApiError code msg)).
Proof.
  revert attempt n; induction remaining as [|remaining IH]; intros attempt n.
  - right. by eexists _, _.
  - cbn zeta. rewrite attempts_step. cbn zeta.
    destruct (endpoint (S n)) as [e|code msg|payload].
    + destruct (negb _); [apply IH|right; by eexists _, _].
    + destruct (_ && _); [apply IH|right; by eexists _, _].
    + left. by eexists.
Qed.

Lemma attempts_count (retry_count remaining attempt n : nat) :
  let run := attempts endpoint method params retry_count attempt remaining n in
  (n <= count_of run <= n + remaining)%nat
  /\ requests (trace_of run) = (count_of run - n)%nat.
Proof.
  revert attempt n; induction remaining as [|remaining IH]; intros attempt n.
  - cbn. lia.
  - cbn zeta. rewrite attempts_step. cbn zeta.
    specialize (IH (S attempt) (S n)). cbn zeta in IH.
    destruct (endpoint (S n)) as [e|code msg|payload].
    + destruct (negb _); cbn [count_of trace_of fst snd]; [|cbn; lia].
      change (requests (?a :: ?b :: ?c :: ?t)) with (S (requests t)). lia.
    + destruct (_ && _); cbn [count_of trace_of fst snd]; [|cbn; lia].
      change (requests (?a :: ?b :: ?c :: ?t)) with (S (requests t)). lia.
    + cbn. lia.
Qed.


Lemma attempts_first_request (retry_count remaining attempt n : nat) :
  (1 <= requests
          (trace_of (attempts endpoint method params retry_count attempt
                              (S remaining) n)))%nat.
Proof.
  rewrite attempts_step. cbn zeta.
  destruct (endpoint (S n));
    [destruct (negb _)|destruct (_ && _)|];
    cbn [trace_of snd]; rewrite requests_cons; cbn [is_request]; lia.
Qed.

Lemma attempts_retry (retry_count attempt remaining n : nat) :
  retried (endpoint (S n)) = true ->
  (attempt + 1 < retry_count)%nat ->
  let again :=
    attempts endpoint method params retry_count (S attempt) remaining (S n) in
  exists wait,
    attempts endpoint method params retry_count attempt (S remaining) n =
      (result_of again, count_of again,
       EvRequest method params :: EvLog WARNING :: EvSleep wait :: trace_of again).
Proof.
  intros Hretry Hlt. rewrite attempts_step. cbn zeta.
  rewrite (bool_decide_eq_true_2 (Z.of_nat attempt < Z.of_nat retry_count - 1))
    by lia.
  cbn [negb].
  destruct (endpoint (S n)) as [e|code msg|payload]; cbn [retried] in Hretry.
  - by eexists.
  - rewrite Hretry. cbn [andb]. by eexists.
  - discriminate.
Qed.

(** The answer to a provider error at the current attempt. *)
Lemma attempts_provider_error (retry_count attempt remaining n : nat)
    (code : option Z) (msg : option string) :
  endpoint (S n) = ProviderError code msg ->
  let error_code := default 0 code in
  let error_msg := default "Unknown error" msg in
  let run := attempts endpoint method params retry_count attempt (S remaining) n in
  let again :=
    attempts endpoint method params retry_count (S attempt) remaining (S n) in
  (is_throttling error_code = false \/ (retry_count <= attempt + 1)%nat ->
     run = (Raise (VKApiError error_code error_msg), S n, [EvRequest method params]))
  /\ (is_throttling error_code = true -> (attempt + 1 < retry_count)%nat ->
     run = (result_of again, count_of again,
            EvRequest method params :: EvLog WARNING
              :: EvSleep ((Z.of_nat attempt + 1) * 2) :: trace_of again)).
Proof.
  intros Hep. cbn zeta. rewrite attempts_step, Hep. cbn zeta. split.
  - intros [Hth|Hlast].
    + by rewrite Hth.
    + rewrite (bool_decide_eq_false_2 (Z.of_nat attempt < Z.of_nat retry_count - 1))
        by lia.
      cbn [negb]. by rewrite andb_false_r.
  - intros Hth Hlt. rewrite Hth.
    by rewrite (bool_decide_eq_true_2 (Z.of_nat attempt < Z.of_nat retry_count - 1))
      by lia.
Qed.

End ApiRequest.

(** C6. Every API call makes at most 3 attempts.  When the attempts before
    attempt [k] were all retried and attempt [k] gets a provider error:
    a non-throttling code is raised at once as [VKApiError] with that code
    and message, after exactly [k + 1] requests; a throttling code before
    the last attempt is followed by a sleep of [(k + 1) * 2] seconds and
    one more request; a throttling code on the last attempt is raised as
    [VKApiError] with that code and message. *)
Theorem api_request_retry_policy (access_token : string) {A : Type}
    (endpoint : nat -> HttpOutcome A) (method : string)
    (params : list (string * value)) (n : nat) :
  let run := _api_request access_token endpoint method params n in
  (requests (trace_of run) <= 3)%nat
  /\ forall (k : nat) (code : option Z) (msg : option string),
       (k < 3)%nat ->
       (forall j, (j < k)%nat -> retried (endpoint (n + 1 + j)%nat) = true) ->
       endpoint (n + 1 + k)%nat = ProviderError code msg ->
       let error_code := default 0 code in
       let error_msg := default "Unknown error" msg in
       (is_throttling error_code = false ->
          result_of run = Raise (VKApiError error_code error_msg)
          /\ requests (trace_of run) = S k)
       /\ (is_throttling error_code = true -> (k < 2)%nat ->
           exists before after,
             trace_of run = before ++ EvSleep ((Z.of_nat k + 1) * 2) :: after
             /\ requests before = S k /\ (1 <= requests after)%nat)
       /\ (is_throttling error_code = true -> k = 2%nat ->
           result_of run = Raise (VKApiError error_code error_msg)
           /\ requests (trace_of run) = 3%nat).
Proof.
  cbn zeta. unfold _api_request, _api_request_with.
  set (ps := params ++ _).
  split.
  { pose proof (attempts_count endpoint method ps 3 3 0 n) as H.
    cbn zeta in H. lia. }
  intros k code msg Hk Hearlier Hep.
  assert (Hfirst : forall j, (j < k)%nat -> retried (endpoint (S (n + j))) = true).
  { intros j Hj. replace (S (n + j)) with (n + 1 + j)%nat by lia. by apply Hearlier. }
  replace (n + 1 + k)%nat with (S (n + k)) in Hep by lia.
  clear Hearlier.
  destruct k as [|[|[|k]]]; [| | |lia].
  - (* first attempt *)
    rewrite Nat.add_0_r in Hep.
    destruct (attempts_provider_error endpoint method ps 3 0 2 n code msg Hep)
      as [Hraise Hretry].
    repeat split.
    + rewrite Hraise by auto. done.
    + rewrite Hraise by auto. done.
    + intros Hth _. rewrite Hretry by (auto || lia).
      eexists [EvRequest method ps; EvLog WARNING], _. split; [reflexivity|].
      split; [reflexivity|]. apply attempts_first_request.
    + lia.
    + lia.
  - (* second attempt *)
    destruct (attempts_retry endpoint method ps 3 0 2 n) as [w ->];
      [ rewrite <- (Nat.add_0_r n); apply Hfirst; lia | lia | ].
    replace (n + 1)%nat with (S n) in Hep by lia.
    destruct (attempts_provider_error endpoint method ps 3 1 1 (S n) code msg Hep)
      as [Hraise Hretry].
    cbn [result_of trace_of fst snd].
    repeat split.
    + rewrite Hraise by auto. done.
    + rewrite Hraise by auto. done.
    + intros Hth _. rewrite Hretry by (auto || lia).
      eexists [EvRequest method ps; EvLog WARNING; EvSleep w;
               EvRequest method ps; EvLog WARNING], _.
      split; [reflexivity|]. split; [reflexivity|]. apply attempts_first_request.
    + lia.
    + lia.
  - (* last attempt *)
    destruct (attempts_retry endpoint method ps 3 0 2 n) as [w ->];
      [ rewrite <- (Nat.add_0_r n); apply Hfirst; lia | lia | ].
    destruct (attempts_retry endpoint method ps 3 1 1 (S n)) as [w' ->];
      [ replace (S (S n)) with (S (n + 1)) by lia; apply Hfirst; lia | lia | ].
    replace (S (n + 2))%nat with (S (S (S n))) in Hep by lia.
    destruct (attempts_provider_error endpoint method ps 3 2 0 (S (S n)) code msg Hep)
      as [Hraise _].
    cbn [result_of trace_of fst snd].
    rewrite Hraise by (right; lia).
    repeat split; try done; lia.
Qed.

Lemma api_request_retry_policy_witness :
  result_of (_api_request "token" flaky_then_auth "wall.post" [] 0%nat)
    = Raise (VKApiError 5 "User authorization failed")
  /\ requests (trace_of (_api_request "token" flaky_then_auth "wall.post" [] 0%nat))
     = 2%nat.
Proof.
  apply (proj2 (api_request_retry_policy "token" flaky_then_auth "wall.post" [] 0%nat)
           1%nat (Some ERROR_AUTH) (Some "User authorization failed")).
  - lia.
  - intros j Hj. assert (j = 0%nat) as -> by lia. reflexivity.
  - reflexivity.
  - reflexivity.
Defined.

(** ** Reasoning about computations *)

Lemma wp_ret {A} (a : A) n Q : Q (Ret a) n [] -> wp (ret a) n Q.
Proof. done. Qed.

Lemma wp_raise {A} (e : exn) n (Q : outcome A -> _) : Q (Raise e) n [] -> wp (raise e) n Q.
Proof. done. Qed.

Lemma wp_emit (e : event) n Q : Q (Ret tt) n [e] -> wp (emit e) n Q.
Proof. done. Qed.

Lemma wp_bind {A B} (m : M A) (f : A -> M B) n Q :
  wp m n (fun r n1 t1 =>
            match r with
            | Ret a => wp (f a) n1 (fun r2 n2 t2 => Q r2 n2 (t1 ++ t2))
            | Raise e => Q (Raise e) n1 t1
            end) ->
  wp (bind m f) n Q.
Proof.
  unfold wp, bind, result_of, count_of, trace_of.
  destruct (m n) as [[[a|e] n1] t1]; cbn; [|done].
  destruct (f a n1) as [[r2 n2] t2]; done.
Qed.

Lemma wp_try_except_VKApiError {A} (body : M A) handler n Q :
  wp body n (fun r n1 t1 =>
               match r with
               | Raise (VKApiError c msg) =>
                   wp (handler c msg) n1 (fun r2 n2 t2 => Q r2 n2 (t1 ++ t2))
               | _ => Q r n1 t1
               end) ->
  wp (try_except_VKApiError body handler) n Q.
Proof.
  unfold wp, try_except_VKApiError, result_of, count_of, trace_of.
  destruct (body n) as [[[a|[c msg|x|x]] n1] t1]; cbn; try done.
  destruct (handler c msg n1) as [[r2 n2] t2]; done.
Qed.

Lemma wp_try_except_Exception {A} (body : M A) handler n Q :
  wp body n (fun r n1 t1 =>
               match r with
               | Raise e => wp (handler e) n1 (fun r2 n2 t2 => Q r2 n2 (t1 ++ t2))
               | Ret _ => Q r n1 t1
               end) ->
  wp (try_except_Exception body handler) n Q.
Proof.
  unfold wp, try_except_Exception, result_of, count_of, trace_of.
  destruct (body n) as [[[a|e] n1] t1]; cbn; try done.
  destruct (handler e n1) as [[r2 n2] t2]; done.
Qed.

Lemma wp_mono {A} (m : M A) n (Q Q' : outcome A -> nat -> list event -> Prop) :
  (forall r n' t, Q r n' t -> Q' r n' t) -> wp m n Q -> wp m n Q'.
Proof. unfold wp; auto. Qed.

Section ApiRequestSpec.

Context (access_token : string) {A : Type}.
Context (endpoint : nat -> HttpOutcome A) (method : string).
Context (params : list (string * value)).

Lemma attempts_spec (retry_count remaining attempt n : nat) :
  wp (attempts endpoint method params retry_count attempt remaining) n
     (fun r n' t =>
        (n <= n')%nat /\ api_result endpoint n r n'
        /\ Forall (api_event method params) t).
Proof.
  unfold wp.
  revert attempt n; induction remaining as [|remaining IH]; intros attempt n.
  - cbn. repeat split; [lia|constructor].
  - rewrite attempts_step. cbn zeta.
    destruct (IH (S attempt) (S n)) as (Hle & Hres & Htr).
    assert (Hagain :
      forall w,
        let again := attempts endpoint method params retry_count (S attempt)
                              remaining (S n) in
        (n <= count_of again)%nat
        /\ api_result endpoint n (result_of again) (count_of again)
        /\ Forall (api_event method params)
             (EvRequest method params :: EvLog WARNING :: EvSleep w
                :: trace_of again)).
    { intros w again. split; [subst again; lia|]. split.
      - subst again.
        destruct (result_of _) as [p|[c m|x|x]]; cbn in *; try done.
        destruct Hres as (m & Hm & Hep). exists m. split; [lia|done].
      - repeat constructor; done. }
    destruct (endpoint (S n)) as [e|code msg|payload] eqn:Hep.
    + destruct (negb _); [apply Hagain|].
      cbn. repeat split; [lia|]. by repeat constructor.
    + destruct (_ && _); [apply Hagain|].
      cbn. repeat split; [lia|]. by repeat constructor.
    + cbn. repeat split; [lia| |by repeat constructor].
      exists (S n). split; [lia|done].
Qed.

End ApiRequestSpec.

Lemma api_request_spec (access_token : string) {A : Type}
    (endpoint : nat -> HttpOutcome A) (method : string)
    (params : list (string * value)) (n : nat) :
  wp (_api_request access_token endpoint method params) n
     (fun r n' t =>
        (n <= n')%nat /\ api_result endpoint n r n'
        /\ Forall (api_event method (with_credentials access_token params)) t).
Proof. apply attempts_spec. Qed.
(** ** Posting to one community *)

Lemma classify_error_never_unused (code : Z) :
  _classify_error code <> NOT_MEMBER /\ _classify_error code <> NETWORK_ERROR.
Proof.
  rewrite classify_error_table. unfold classification_table.
  repeat case_decide; done.
Qed.

(** The statuses [post_to_suggestion] can give a result. *)
Lemma post_to_suggestion_spec (access_token : string) (srv : Server)
    (gid : Z) (gname message : string) (attachments : option string) (n : nat) :
  wp (post_to_suggestion access_token srv gid gname message attachments) n
     (fun r n' t =>
        (n <= n')%nat
        /\ (exists res, r = Ret res /\ group_id res = gid /\ group_name res = gname
            /\ ((status res = SUCCESS /\ error_code res = None)
                \/ (status res = UNKNOWN_ERROR /\ error_code res = None)
                \/ (exists code, status res = _classify_error code
                                 /\ error_code res = Some code)))
        /\ Forall (fun e => forall g, is_submission g e -> g = gid) t).
Proof.
  unfold post_to_suggestion.
  apply wp_bind. unfold wp at 1. cbn [result_of count_of trace_of fst snd].
  set (ps := if truthy attachments then _ else _).
  assert (Hps : PyDict.get "owner_id" ps = Some (VInt (- gid))).
  { subst ps. by destruct (truthy attachments). }
  apply wp_try_except_VKApiError, wp_bind.
  eapply wp_mono; [|apply api_request_spec].
  intros r n' t (Hle & Hres & Htr).
  assert (Hsub : Forall (fun e => forall g, is_submission g e -> g = gid) t).
  { eapply Forall_impl; [exact Htr|]. intros [m p| | | |] He g Hg; cbn in *; try done.
    destruct He as [_ ->]. destruct Hg as [_ Hg].
    unfold with_credentials in Hg.
    assert (PyDict.get "owner_id" (ps ++ [("access_token", VStr access_token);
                                           ("v", VStr API_VERSION)])
            = Some (VInt (- gid))) as Hget.
    { clear -Hps. induction ps as [|[k v] ps IH]; [done|].
      cbn in *. case_decide; [done|]. by apply IH. }
    rewrite Hget in Hg. injection Hg as Hg. lia. }
  destruct r as [response|[code msg| |]]; cbn in Hres; try done.
  - destruct (r_post_id response) as [pid|]; [destruct (bool_decide _)|];
      apply wp_ret; cbn [app]; rewrite ?app_nil_r; (split; [exact Hle|]);
      (split; [|exact Hsub]); eexists; (split; [reflexivity|]); cbn;
      repeat split; first [by left | by right; left].
  - apply wp_ret. cbn [app]. rewrite ?app_nil_r. split; [exact Hle|].
    split; [|exact Hsub].
    eexists. split; [reflexivity|]. cbn. repeat split. right. right. by eexists.
Qed.
(** ** The posting loop *)

Ltac split_dispatch_post :=
  unfold dispatch_post; split; [|split; [|split; [|split; [|split]]]].

Lemma dispatch_post_cons (groups_info : gmap Z GroupInfo) (stop : bool)
    (identifier : string) (gid : Z) (rest : list (string * Z))
    (res : PostResult) (new : list PostResult) (t0 t : list event) :
  group_id res = gid ->
  (closed groups_info gid -> status res = SUGGEST_DISABLED) ->
  used_status res ->
  (stop = true -> status res <> AUTH_ERROR) ->
  (forall g, closed groups_info g -> Forall (fun e => ~ is_submission g e) t0) ->
  dispatch_post groups_info stop rest new t ->
  dispatch_post groups_info stop ((identifier, gid) :: rest) (res :: new) (t0 ++ t).
Proof.
  intros Hgid Hclosed Hused Hauth Ht0 (Hlen & Hfull & Hpos & Hall & Hlast & Htr).
  split_dispatch_post.
  - cbn. lia.
  - intros Hs. cbn. rewrite Hfull by done. done.
  - intros [|j] ident g Hj Hlt; cbn in *.
    + injection Hj as <- <-. by eexists.
    + apply (Hpos j ident g Hj). lia.
  - by constructor.
  - intros Hs [|j] r Hj Hr; cbn in *.
    + injection Hj as <-. by destruct (Hauth Hs).
    + f_equal. by apply (Hlast Hs j r).
  - intros g Hg. apply Forall_app. split; [by apply Ht0|by apply Htr].
Qed.

Lemma dispatch_spec (access_token : string) (srv : Server)
    (groups_info : gmap Z GroupInfo) (total : nat) (message : string)
    (attachments : option string) (on_progress stop : bool)
    (items : list (string * Z)) :
  forall (i : nat) (results : list PostResult) (n : nat),
    wp (dispatch access_token srv groups_info total message attachments
                 on_progress stop items i results) n
       (fun r n' t =>
          (n <= n')%nat
          /\ exists new, r = Ret (results ++ new)
                         /\ dispatch_post groups_info stop items new t).
Proof.
  induction items as [|[identifier gid] rest IH]; intros i results n.
  - apply wp_ret. split; [lia|]. exists []. rewrite app_nil_r. split; [done|].
    split_dispatch_post; cbn; done.
  - cbn [dispatch].
    set (gname := match groups_info !! gid with
                  | Some info => name info | None => default_name gid end).
    (* the tail of an iteration that goes on to the next target *)
    assert (Hcont : forall res n0 (Q : outcome (list PostResult) -> nat -> list event -> Prop),
      (forall r n' t,
         (n0 <= n')%nat ->
         (exists new, r = Ret ((results ++ [res]) ++ new)
                      /\ dispatch_post groups_info stop rest new t) ->
         forall t0, Forall (fun e => forall g, ~ is_submission g e) t0 ->
                    Q r n' (t0 ++ t)) ->
      wp (do_ (if on_progress then emit (EvProgress (i + 1) total res) else ret tt);
          dispatch access_token srv groups_info total message attachments
                   on_progress stop rest (S i) (results ++ [res])) n0 Q).
    { intros res n0 Q HQ. apply wp_bind.
      destruct on_progress.
      - apply wp_emit. eapply wp_mono; [|apply IH].
        intros r n' t [Hle Hnew].
        apply (HQ r n' t Hle Hnew [EvProgress (i + 1) total res]).
        repeat constructor. by intros g [].
      - apply wp_ret. eapply wp_mono; [|apply IH].
        intros r n' t [Hle Hnew]. apply (HQ r n' t Hle Hnew []). constructor. }
    destruct (match groups_info !! gid with
              | Some info => negb (can_suggest info) && negb (can_post info)
              | None => false
              end) eqn:Hclosed.
    + (* the community is closed: no request *)
      apply wp_bind, wp_emit. apply Hcont.
      intros r n' t Hle (new & -> & Hnew) t0 Ht0. split; [done|].
      eexists (_ :: new). split; [by rewrite <- app_assoc|].
      apply (dispatch_post_cons groups_info stop identifier gid rest _ new
               (EvLog WARNING :: t0) t); try done.
      * intros g Hg. constructor; [by intros []|].
        eapply Forall_impl; [exact Ht0|]. intros e He. apply He.
    + (* the post is submitted *)
      assert (Hopen : ~ closed groups_info gid).
      { intros (info & Hinfo & Hp & Hs). rewrite Hinfo, Hp, Hs in Hclosed. done. }
      apply wp_bind, wp_emit. apply wp_bind.
      eapply wp_mono; [|apply post_to_suggestion_spec].
      intros r n1 t1 (Hle1 & (res & -> & Hgid & _ & Hstatus) & Hsub).
      assert (Hused : used_status res).
      { unfold used_status.
        destruct Hstatus as [[-> _]|[[-> _]|(code & -> & _)]]; try done.
        apply classify_error_never_unused. }
      assert (Ht1 : forall g, closed groups_info g ->
                              Forall (fun e => ~ is_submission g e) t1).
      { intros g Hg. eapply Forall_impl; [exact Hsub|].
        intros e He Hsubm. apply Hopen. by rewrite <- (He g Hsubm). }
      apply wp_bind.
      assert (Hlog : forall (Q : outcome unit -> nat -> list event -> Prop),
                (forall lv, Q (Ret tt) n1 [EvLog lv]) ->
                wp (if decide (status res = SUCCESS) then _log INFO
                    else _log WARNING) n1 Q).
      { intros Q HQ. case_decide; apply wp_emit, HQ. }
      apply Hlog. intros lv.
      destruct (stop && bool_decide (status res = AUTH_ERROR)) eqn:Hstop.
      * (* stop on the authorisation error *)
        apply andb_true_iff in Hstop as [-> Hauth%bool_decide_eq_true].
        apply wp_bind, wp_emit, wp_ret. split; [lia|].
        exists [res]. split; [done|].
        split_dispatch_post; cbn; try lia; try done.
        -- intros [|j] ident g Hj Hlt; cbn in *; [|lia].
           injection Hj as <- <-. exists res. repeat split; [done|].
           intros Hg. by destruct Hopen.
        -- constructor; [exact Hused|constructor].
        -- intros _ [|[|j]] r Hj _; done.
        -- intros g Hg. constructor; [by intros []|].
           apply Forall_app. split; [by apply Ht1|]. cbn.
           repeat constructor; by intros [].
      * apply Hcont.
        intros r n' t Hle (new & -> & Hnew) t0 Ht0. split; [lia|].
        eexists (_ :: new). split; [by rewrite <- app_assoc|].
        replace ([EvLog INFO] ++ t1 ++ [EvLog lv] ++ t0 ++ t)
          with ((EvLog INFO :: t1 ++ EvLog lv :: t0) ++ t)
          by (cbn; by rewrite <- !app_assoc).
        apply (dispatch_post_cons groups_info stop identifier gid rest res new
                 (EvLog INFO :: t1 ++ EvLog lv :: t0) t); try done.
        -- intros -> Hauth. rewrite (bool_decide_eq_true_2 _ Hauth) in Hstop. done.
        -- intros g Hg. constructor; [by intros []|].
           apply Forall_app. split; [by apply Ht1|]. cbn.
           constructor; [by intros []|].
           eapply Forall_impl; [exact Ht0|]. intros e He. apply He.
Qed.




(** ** Insertion-ordered dictionaries *)

Lemma pydict_keys_set {V} (k : string) (v : V) (d : PyDict.t V) :
  PyDict.keys (PyDict.set k v d)
  = PyDict.keys d ++ (if decide (k ∈ PyDict.keys d) then [] else [k]).
Proof.
  unfold PyDict.keys. induction d as [|[k' v'] d IH]; cbn.
  - rewrite decide_False; [done|]. by intros ?%elem_of_nil.
  - destruct (decide (k' = k)) as [->|Hne]; cbn.
    + rewrite decide_True by apply list_elem_of_here. by rewrite app_nil_r.
    + rewrite IH. f_equal. f_equal.
      destruct (decide (k ∈ d.*1)) as [Hin|Hout].
      * rewrite decide_True; [done|]. by apply list_elem_of_further.
      * rewrite decide_False; [done|].
        intros [?|?]%elem_of_cons; [by subst|done].
Qed.

Lemma pydict_get_set {V} (k k' : string) (v : V) (d : PyDict.t V) :
  PyDict.get k' (PyDict.set k v d)
  = if decide (k = k') then Some v else PyDict.get k' d.
Proof.
  induction d as [|[k0 v0] d IH]; cbn.
  - done.
  - destruct (decide (k0 = k)) as [->|Hne]; cbn.
    + destruct (decide (k = k')); done.
    + destruct (decide (k0 = k')) as [->|Hne'].
      * by rewrite decide_False by done.
      * exact IH.
Qed.

Lemma pydict_get_keys {V} (k : string) (d : PyDict.t V) :
  k ∈ PyDict.keys d <-> is_Some (PyDict.get k d).
Proof.
  unfold PyDict.keys. induction d as [|[k0 v0] d IH]; cbn.
  - split; [by intros ?%elem_of_nil|by intros [? ?]].
  - destruct (decide (k0 = k)) as [->|Hne].
    + split; [by eexists|intros _; apply list_elem_of_here].
    + rewrite elem_of_cons, IH.
      split; [intros [?|?]; [by subst|done] | by right].
Qed.

(** ** Identifier resolution *)

Lemma first_occurrences_ext (s1 s2 l : list string) :
  (forall x, x ∈ s1 <-> x ∈ s2) ->
  first_occurrences s1 l = first_occurrences s2 l.
Proof.
  revert s1 s2; induction l as [|x l IH]; intros s1 s2 Hs; cbn; [done|].
  destruct (decide (x ∈ s1)) as [H1|H1].
  - rewrite decide_True by by apply Hs. by apply IH.
  - rewrite decide_False by (by rewrite <- Hs). f_equal. apply IH.
    intros y. rewrite !elem_of_cons, Hs. done.
Qed.

(** The first loop: its keys are the numeric inputs in input order, each
    mapped to the absolute value it denotes; what it queues is not numeric. *)
Lemma resolve_local_fold (group_identifiers : list string) :
  forall (result : PyDict.t Z) (to_resolve : list string),
    (forall k v, PyDict.get k result = Some v ->
                 exists z, int k = Some z /\ v = Z.abs z) ->
    Forall (fun k => is_numeric k = false) to_resolve ->
    let out := foldl resolve_step (result, to_resolve) group_identifiers in
    PyDict.keys out.1
      = PyDict.keys result
        ++ first_occurrences (PyDict.keys result)
             (List.filter is_numeric
                (normalize <$> List.filter
                                 (fun s => negb (bool_decide (strip s = "")))
                                 group_identifiers))
    /\ (forall k v, PyDict.get k out.1 = Some v ->
                    exists z, int k = Some z /\ v = Z.abs z)
    /\ Forall (fun k => is_numeric k = false) out.2.
Proof.
  induction group_identifiers as [|s ids IH]; intros result to_resolve Hres Hq.
  - cbn. by rewrite app_nil_r.
  - cbn [foldl].
    set (keep := fun s => negb (bool_decide (strip s = ""))).
    destruct (decide (strip s = "")) as [Hblank|Hblank].
    + assert (resolve_step (result, to_resolve) s = (result, to_resolve)) as ->.
      { unfold resolve_step. by rewrite decide_True. }
      assert (List.filter keep (s :: ids) = List.filter keep ids) as ->.
      { cbn. unfold keep at 1. by rewrite (bool_decide_eq_true_2 _ Hblank). }
      by apply IH.
    + assert (List.filter keep (s :: ids) = s :: List.filter keep ids) as ->.
      { cbn. unfold keep at 1. by rewrite (bool_decide_eq_false_2 _ Hblank). }
      cbn [fmap list_fmap]. fold (normalize s). cbn [List.filter].
      unfold is_numeric at 1.
      destruct (int (normalize s)) as [z|] eqn:Hint.
      * assert (resolve_step (result, to_resolve) s
                = (PyDict.set (normalize s) (Z.abs z) result, to_resolve)) as ->.
        { unfold resolve_step. rewrite decide_False by done.
          fold (normalize s). by rewrite Hint. }
        destruct (IH (PyDict.set (normalize s) (Z.abs z) result) to_resolve)
          as (Hkeys & Hvals & Hrest); [|done|].
        { intros k v. rewrite pydict_get_set. case_decide as Hk.
          - intros [= <-]. subst k. by exists z.
          - apply Hres. }
        cbn zeta in *. split; [|done].
        rewrite Hkeys, pydict_keys_set. cbn [first_occurrences].
        destruct (decide (normalize s ∈ PyDict.keys result)) as [Hin|Hout].
        -- by rewrite app_nil_r.
        -- rewrite <- app_assoc. cbn [app]. f_equal. f_equal.
           apply first_occurrences_ext. intros x.
           rewrite elem_of_app, !elem_of_cons, elem_of_nil. tauto.
      * assert (resolve_step (result, to_resolve) s
                = (result, to_resolve ++ [normalize s])) as ->.
        { unfold resolve_step. rewrite decide_False by done.
          fold (normalize s). by rewrite Hint. }
        apply IH; [done|]. apply Forall_app. split; [done|].
        constructor; [|constructor]. unfold is_numeric. by rewrite Hint.
Qed.

Lemma resolve_local_spec (group_identifiers : list string) :
  let out := resolve_local group_identifiers in
  PyDict.keys out.1 = numeric_inputs group_identifiers
  /\ (forall k v, PyDict.get k out.1 = Some v ->
                  exists z, int k = Some z /\ v = Z.abs z)
  /\ Forall (fun k => is_numeric k = false) out.2.
Proof.
  apply (resolve_local_fold group_identifiers [] []); [|constructor].
  intros k v Hk. done.
Qed.

Lemma batches_elem {A} (size : nat) (l : list A) (b : list A) (x : A) :
  b ∈ batches size l -> x ∈ b -> x ∈ l.
Proof.
  unfold batches. intros (i & -> & _)%list_elem_of_fmap Hx.
  by apply (subseteq_drop i l), (subseteq_take size).
Qed.

Lemma api_event_no_submission (method : string) (params : list (string * value))
    (t : list event) :
  method <> "wall.post" -> Forall (api_event method params) t -> no_submission t.
Proof.
  intros Hm Ht. eapply Forall_impl; [exact Ht|].
  intros [m p| | | |] He g Hg; cbn in *; try done.
  destruct He as [-> _], Hg as [-> _]. done.
Qed.

Lemma no_submission_app (t1 t2 : list event) :
  no_submission t1 -> no_submission t2 -> no_submission (t1 ++ t2).
Proof. intros H1 H2. apply Forall_app. done. Qed.

Lemma no_submission_log (lv : level) : no_submission [EvLog lv].
Proof. repeat constructor. by intros g []. Qed.

Lemma extends_refl (pool : list string) (result : PyDict.t Z) :
  extends pool result result.
Proof. split; [exists []; by rewrite app_nil_r|done]. Qed.

Lemma extends_trans (pool : list string) (r1 r2 r3 : PyDict.t Z) :
  extends pool r1 r2 -> extends pool r2 r3 -> extends pool r1 r3.
Proof.
  intros [(a1 & Hk1 & Ha1) Hg1] [(a2 & Hk2 & Ha2) Hg2]. split.
  - exists (a1 ++ a2). rewrite Hk2, Hk1, <- app_assoc. split; [done|].
    by apply Forall_app.
  - intros k Hk. by rewrite Hg2, Hg1.
Qed.

Lemma extends_set (pool : list string) (k : string) (v : Z) (result : PyDict.t Z) :
  k ∈ pool -> extends pool result (PyDict.set k v result).
Proof.
  intros Hk. split.
  - eexists. split; [apply pydict_keys_set|]. case_decide; by repeat constructor.
  - intros k' Hk'. rewrite pydict_get_set. case_decide; [by subst|done].
Qed.

Lemma match_group_extends (pool : list string) (group : GroupJson)
    (batch : list string) (result : PyDict.t Z) :
  (forall k, k ∈ batch -> k ∈ pool) ->
  extends pool result (match_group group batch result).
Proof.
  induction batch as [|orig rest IH]; intros Hpool; cbn.
  - apply extends_refl.
  - destruct (_ || _).
    + apply extends_set, Hpool, list_elem_of_here.
    + apply IH. intros k Hk. by apply Hpool, list_elem_of_further.
Qed.

Lemma match_groups_extends (pool : list string) (groups : list GroupJson)
    (batch : list string) (result : PyDict.t Z) :
  (forall k, k ∈ batch -> k ∈ pool) ->
  extends pool result (match_groups groups batch result).
Proof.
  intros Hpool. unfold match_groups.
  revert result; induction groups as [|g groups IH]; intros result; cbn.
  - apply extends_refl.
  - eapply extends_trans; [|apply IH]. by apply match_group_extends.
Qed.

Lemma resolve_batches_spec (access_token : string) (srv : Server)
    (pool : list string) (bs : list (list string)) :
  (forall b k, b ∈ bs -> k ∈ b -> k ∈ pool) ->
  forall (result : PyDict.t Z) (n : nat),
    wp (resolve_batches access_token srv bs result) n
       (fun r n' t =>
          (n <= n')%nat
          /\ (exists result', r = Ret result' /\ extends pool result result')
          /\ no_submission t).
Proof.
  induction bs as [|batch rest IH]; intros Hpool result n.
  - apply wp_ret. split; [lia|]. split; [|constructor].
    exists result. split; [done|apply extends_refl].
  - cbn [resolve_batches]. apply wp_bind, wp_try_except_VKApiError, wp_bind.
    eapply wp_mono; [|apply api_request_spec].
    intros r n1 t1 (Hle1 & Hres & Htr).
    assert (Hno : no_submission t1)
      by (eapply api_event_no_submission; [|exact Htr]; done).
    assert (Hrest : forall b k, b ∈ rest -> k ∈ b -> k ∈ pool).
    { intros b k Hb. by apply Hpool, list_elem_of_further. }
    assert (Hbatch : forall k, k ∈ batch -> k ∈ pool).
    { intros k. apply Hpool, list_elem_of_here. }
    assert (Hnext : forall result1 t0,
      extends pool result result1 -> no_submission t0 ->
      wp (resolve_batches access_token srv rest result1) n1
         (fun r2 n2 t2 =>
            (n <= n2)%nat
            /\ (exists result', r2 = Ret result' /\ extends pool result result')
            /\ no_submission (t0 ++ t2))).
    { intros result1 t0 Hext Ht0. eapply wp_mono; [|by apply IH].
      intros r2 n2 t2 (Hle2 & (result' & -> & Hext') & Hno2).
      split; [lia|]. split; [|by apply no_submission_app].
      exists result'. split; [done|]. by eapply extends_trans. }
    destruct r as [response|[code msg| |]]; cbn in Hres; try done.
    + destruct (groups_list response) as [groups|]; apply wp_ret.
      * rewrite app_nil_r. apply Hnext; [|done]. by apply match_groups_extends.
      * rewrite app_nil_r. apply Hnext; [apply extends_refl|done].
    + apply wp_bind, wp_emit, wp_ret. apply Hnext; [apply extends_refl|].
      apply no_submission_app; [done|]. apply no_submission_log.
Qed.

Lemma resolve_group_ids_spec (access_token : string) (srv : Server)
    (group_identifiers : list string) (n : nat) :
  wp (resolve_group_ids access_token srv group_identifiers) n
     (fun r n' t =>
        (n <= n')%nat /\ no_submission t
        /\ exists resolved handles,
             r = Ret resolved
             /\ PyDict.keys resolved = numeric_inputs group_identifiers ++ handles
             /\ Forall (fun k => is_numeric k = true)
                       (numeric_inputs group_identifiers)
             /\ Forall (fun k => is_numeric k = false) handles
             /\ (forall k v, PyDict.get k resolved = Some v ->
                             is_numeric k = true ->
                             exists z, int k = Some z /\ v = Z.abs z)).
Proof.
  unfold resolve_group_ids.
  pose proof (resolve_local_spec group_identifiers) as (Hkeys & Hvals & Hq).
  destruct (resolve_local group_identifiers) as [result to_resolve].
  cbn [fst snd] in *.
  eapply wp_mono;
    [|apply (resolve_batches_spec access_token srv to_resolve);
      intros b k; apply batches_elem].
  intros r n' t (Hle & (resolved & -> & (added & Hadd & Hin) & Hget) & Hno).
  split; [done|]. split; [done|].
  exists resolved, added. split; [done|]. split; [by rewrite Hadd, Hkeys|].
  rewrite Forall_forall in Hq. repeat split.
  - rewrite <- Hkeys. apply Forall_forall. intros k Hk.
    apply pydict_get_keys in Hk as [v Hv].
    destruct (Hvals k v Hv) as (z & Hz & _). unfold is_numeric. by rewrite Hz.
  - eapply Forall_impl; [exact Hin|]. intros k Hk. by apply Hq.
  - intros k v Hk Hnum. apply Hvals. rewrite <- Hget; [done|].
    intros Hpool. apply Hq in Hpool. congruence.
Qed.

(** C4 (as amended). The keys of the map returned by [resolve_group_ids]
    are the numeric identifiers of the input, normalized, in the order of
    their first occurrence in the input, followed by resolved handles, none
    of which is numeric: input order is kept among the numeric identifiers,
    and every one of them precedes every handle. *)
Theorem resolved_order_numeric_first (access_token : string) (srv : Server)
    (group_identifiers : list string) (n : nat) :
  exists resolved handles,
    result_of (resolve_group_ids access_token srv group_identifiers n)
      = Ret resolved
    /\ PyDict.keys resolved = numeric_inputs group_identifiers ++ handles
    /\ Forall (fun k => is_numeric k = true) (numeric_inputs group_identifiers)
    /\ Forall (fun k => is_numeric k = false) handles.
Proof.
  destruct (resolve_group_ids_spec access_token srv group_identifiers n)
    as (_ & _ & resolved & handles & Hr & Hk & Hn & Hh & _).
  by exists resolved, handles.
Qed.

(** The claim of C4 as stated fails: with the input [durov, 1] the entry of
    the numeric identifier comes first although it is second in the input. *)
Lemma resolved_order_not_input_order :
  exists resolved,
    result_of (resolve_group_ids "token" handle_service ["durov"; "1"] 0%nat)
      = Ret resolved
    /\ ~ input_order_kept ["durov"; "1"] resolved.
Proof.
  exists [("1", 1); ("durov", 777)]. split; [by vm_compute|].
  intros Hkept.
  destruct (Hkept 0%nat 1%nat "1" "durov" eq_refl eq_refl ltac:(lia))
    as (i' & j' & Hi & Hj & Hlt).
  vm_compute in Hi, Hj. injection Hi as <-. injection Hj as <-. lia.
Qed.

(** C5. The numeric identifier [0] is resolved, without any request, to the
    id 0, which is not strictly positive. *)
Theorem resolve_zero_identifier (access_token : string) (srv : Server) (n : nat) :
  resolve_group_ids access_token srv ["0"] n = (Ret [("0", 0)], n, []).
Proof. reflexivity. Qed.

(** ** Metadata lookup *)

Lemma bind_run {A B} (m : M A) (f : A -> M B) (n : nat) :
  bind m f n =
    match result_of (m n) with
    | Ret a =>
        let k := f a (count_of (m n)) in
        (result_of k, count_of k, trace_of (m n) ++ trace_of k)
    | Raise e => (Raise e, count_of (m n), trace_of (m n))
    end.
Proof.
  unfold bind, result_of, count_of, trace_of.
  destruct (m n) as [[[a|e] n1] t1]; cbn; [|done].
  by destruct (f a n1) as [[r n2] t2].
Qed.

Lemma store_groups_other (groups : list GroupJson) (result : gmap Z GroupInfo)
    (gid : Z) :
  gid ∉ g_id <$> groups -> store_groups groups result !! gid = result !! gid.
Proof.
  unfold store_groups. revert result.
  induction groups as [|g groups IH]; intros result Hout; cbn; [done|].
  cbn in Hout. apply not_elem_of_cons in Hout as [Hne Hout].
  rewrite IH by done. by rewrite lookup_insert_ne.
Qed.

Lemma store_groups_is_Some (groups : list GroupJson) (result : gmap Z GroupInfo)
    (gid : Z) :
  is_Some (result !! gid) -> is_Some (store_groups groups result !! gid).
Proof.
  unfold store_groups. revert result.
  induction groups as [|g groups IH]; intros result Hin; cbn; [done|].
  apply IH. rewrite lookup_insert. case_decide; [by eexists|done].
Qed.

Lemma store_placeholders_lookup (batch : list Z) (result : gmap Z GroupInfo)
    (gid : Z) :
  store_placeholders batch result !! gid =
    match result !! gid with
    | Some info => Some info
    | None => if decide (gid ∈ batch) then Some (placeholder gid) else None
    end.
Proof.
  unfold store_placeholders. revert result.
  induction batch as [|g batch IH]; intros result; cbn.
  - rewrite decide_False by by intros ?%elem_of_nil. by destruct (result !! gid).
  - rewrite IH. destruct (result !! g) as [info|] eqn:Hg.
    + destruct (result !! gid) as [info'|] eqn:Hgid; [done|].
      assert (g <> gid) by congruence.
      destruct (decide (gid ∈ batch)) as [Hin|Hout].
      * by rewrite decide_True by by right.
      * rewrite decide_False; [done|].
        intros [?|?]%elem_of_cons; [by subst|done].
    + destruct (decide (g = gid)) as [->|Hne].
      * rewrite lookup_insert_eq, Hg. by rewrite decide_True by by left.
      * rewrite lookup_insert_ne by done.
        destruct (result !! gid); [done|].
        destruct (decide (gid ∈ batch)) as [Hin|Hout].
        -- by rewrite decide_True by by right.
        -- rewrite decide_False; [done|].
           intros [?|?]%elem_of_cons; [by subst|done].
Qed.

(** One batch: entries are never removed, and an entry whose id no later
    answer carries is left as it is. *)
Lemma fetch_batch_spec (access_token : string) (srv : Server)
    (batch : list Z) (result : gmap Z GroupInfo) (n : nat) :
  wp (fetch_batch access_token srv batch result) n
     (fun r n' t =>
        (n <= n')%nat /\ no_submission t
        /\ exists result',
             r = Ret result'
             /\ (forall gid, is_Some (result !! gid) -> is_Some (result' !! gid))
             /\ (forall gid info, never_carried srv n gid ->
                                  result !! gid = Some info ->
                                  result' !! gid = Some info)).
Proof.
  unfold fetch_batch. apply wp_try_except_VKApiError, wp_bind.
  eapply wp_mono; [|apply api_request_spec].
  intros r n1 t1 (Hle & Hres & Htr).
  assert (Hno : no_submission t1)
    by (eapply api_event_no_submission; [|exact Htr]; done).
  destruct r as [response|[code msg| |]]; cbn in Hres; try done.
  - destruct Hres as (m & Hm & Hep).
    destruct (groups_list response) as [groups|] eqn:Hgroups; apply wp_ret;
      rewrite app_nil_r; (split; [done|]); (split; [done|]).
    + eexists. split; [done|]. split.
      * intros gid. apply store_groups_is_Some.
      * intros gid info Hnever Hgid. rewrite store_groups_other; [done|].
        intros Hin. apply (Hnever m response); [lia|done|]. by exists groups.
    + by exists result.
  - apply wp_bind, wp_emit, wp_ret. split; [done|].
    split; [apply no_submission_app; [done|apply no_submission_log]|].
    eexists. split; [done|]. split.
    + intros gid [info Hinfo]. rewrite store_placeholders_lookup, Hinfo. by eexists.
    + intros gid info _ Hinfo. by rewrite store_placeholders_lookup, Hinfo.
Qed.

Lemma never_carried_later (srv : Server) (n n' : nat) (gid : Z) :
  (n <= n')%nat -> never_carried srv n gid -> never_carried srv n' gid.
Proof. intros Hle Hn m payload Hm. apply Hn. lia. Qed.

Lemma fetch_batches_spec (access_token : string) (srv : Server)
    (bs : list (list Z)) :
  forall (result : gmap Z GroupInfo) (n : nat),
    wp (fetch_batches access_token srv bs result) n
       (fun r n' t =>
          (n <= n')%nat /\ no_submission t
          /\ exists result',
               r = Ret result'
               /\ (forall gid, is_Some (result !! gid) -> is_Some (result' !! gid))
               /\ (forall gid info, never_carried srv n gid ->
                                    result !! gid = Some info ->
                                    result' !! gid = Some info)).
Proof.
  induction bs as [|batch rest IH]; intros result n.
  - apply wp_ret. split; [lia|]. split; [constructor|]. by exists result.
  - cbn [fetch_batches]. apply wp_bind.
    eapply wp_mono; [|apply fetch_batch_spec].
    intros r n1 t1 (Hle1 & Hno1 & result1 & -> & Hsome1 & Hkeep1).
    eapply wp_mono; [|apply IH].
    intros r2 n2 t2 (Hle2 & Hno2 & result2 & -> & Hsome2 & Hkeep2).
    split; [lia|]. split; [by apply no_submission_app|].
    exists result2. split; [done|]. split.
    + intros gid Hgid. by apply Hsome2, Hsome1.
    + intros gid info Hnever Hgid. apply Hkeep2.
      * by apply (never_carried_later srv n n1).
      * by apply Hkeep1.
Qed.

Lemma result_of_mk {A} (r : outcome A) (n : nat) (t : list event) :
  result_of (r, n, t) = r.
Proof. reflexivity. Qed.

Lemma count_of_mk {A} (r : outcome A) (n : nat) (t : list event) :
  count_of (r, n, t) = n.
Proof. reflexivity. Qed.

Lemma fetch_batch_failed (access_token : string) (srv : Server)
    (batch : list Z) (result : gmap Z GroupInfo) (n : nat) (code : Z)
    (msg : string) :
  result_of (groups_lookup access_token srv batch n) = Raise (VKApiError code msg) ->
  fetch_batch access_token srv batch result n
  = (Ret (store_placeholders batch result),
     count_of (groups_lookup access_token srv batch n),
     trace_of (groups_lookup access_token srv batch n) ++ [EvLog WARNING]).
Proof.
  intros Hfail. unfold fetch_batch, try_except_VKApiError.
  rewrite bind_run. fold (groups_lookup access_token srv batch).
  rewrite Hfail. reflexivity.
Qed.





(** ** Bulk posting *)

Lemma get_groups_info_returns (access_token : string) (srv : Server)
    (group_ids : list Z) (n : nat) :
  exists groups_info,
    result_of (get_groups_info access_token srv group_ids n) = Ret groups_info
    /\ no_submission (trace_of (get_groups_info access_token srv group_ids n)).
Proof.
  destruct (fetch_batches_spec access_token srv (batches 500 group_ids) ∅ n)
    as (_ & Hno & groups_info & Hres & _).
  by exists groups_info.
Qed.

(** [process_groups] as the sequence of its three phases. *)
Lemma process_groups_run (access_token : string) (srv : Server)
    (group_identifiers : list string) (message : string)
    (attachments : option string) (on_progress stop : bool) (n : nat) :
  process_groups access_token srv group_identifiers message attachments
                 on_progress stop n =
    let resolving := resolve_group_ids access_token srv group_identifiers n in
    match result_of resolving with
    | Ret [] =>
        (Ret [], count_of resolving,
         EvLog INFO :: trace_of resolving ++ [EvLog ERROR])
    | Ret resolved =>
        let fetching := get_groups_info access_token srv
                          (PyDict.values resolved) (count_of resolving) in
        match result_of fetching with
        | Ret groups_info =>
            let posting :=
              dispatch access_token srv groups_info
                       (length (PyDict.values resolved)) message attachments
                       on_progress stop resolved 0 [] (count_of fetching) in
            (result_of posting, count_of posting,
             EvLog INFO :: trace_of resolving
               ++ EvLog INFO :: EvLog INFO :: trace_of fetching
               ++ trace_of posting)
        | Raise e =>
            (Raise e, count_of fetching,
             EvLog INFO :: trace_of resolving
               ++ EvLog INFO :: EvLog INFO :: trace_of fetching)
        end
    | Raise e => (Raise e, count_of resolving, EvLog INFO :: trace_of resolving)
    end.
Proof.
  unfold process_groups, bind, _log, emit, ret, result_of, count_of, trace_of.
  cbn zeta.
  destruct (resolve_group_ids access_token srv group_identifiers n)
    as [[[[|item resolved]|e] n1] t1]; cbn [fst snd app]; try reflexivity.
  destruct (get_groups_info access_token srv _ n1)
    as [[[groups_info|e] n2] t2]; cbn [fst snd app]; try reflexivity.
  destruct (dispatch _ _ _ _ _ _ _ _ _ _ _ _) as [[r n3] t3].
  cbn [fst snd app]. reflexivity.
Qed.

Lemma resolve_group_ids_returns (access_token : string) (srv : Server)
    (group_identifiers : list string) (n : nat) :
  exists resolved,
    result_of (resolve_group_ids access_token srv group_identifiers n)
      = Ret resolved
    /\ no_submission
         (trace_of (resolve_group_ids access_token srv group_identifiers n)).
Proof.
  destruct (resolve_group_ids_spec access_token srv group_identifiers n)
    as (_ & Hno & resolved & _ & Hres & _).
  by exists resolved.
Qed.






(** ** Statuses that are never assigned *)

Lemma api_request_transport_exhausted (access_token : string) {A : Type}
    (endpoint : nat -> HttpOutcome A) (method : string)
    (params : list (string * value)) (n : nat) :
  (forall k, (k < 3)%nat -> exists e, endpoint (n + 1 + k)%nat = TransportFailure e) ->
  exists msg,
    result_of (_api_request access_token endpoint method params n)
      = Raise (VKApiError (-1) msg).
Proof.
  intros Hfail.
  destruct (Hfail 0%nat ltac:(lia)) as [e1 H1].
  destruct (Hfail 1%nat ltac:(lia)) as [e2 H2].
  destruct (Hfail 2%nat ltac:(lia)) as [e3 H3].
  replace (n + 1 + 0)%nat with (S n) in H1 by lia.
  replace (n + 1 + 1)%nat with (S (S n)) in H2 by lia.
  replace (n + 1 + 2)%nat with (S (S (S n))) in H3 by lia.
  unfold _api_request, _api_request_with.
  rewrite attempts_step, H1. cbn zeta.
  rewrite (bool_decide_eq_true_2 (Z.of_nat 0 < Z.of_nat 3 - 1)) by lia.
  cbn [negb]. rewrite result_of_mk.
  rewrite attempts_step, H2. cbn zeta.
  rewrite (bool_decide_eq_true_2 (Z.of_nat 1 < Z.of_nat 3 - 1)) by lia.
  cbn [negb]. rewrite result_of_mk.
  rewrite attempts_step, H3. cbn zeta.
  rewrite (bool_decide_eq_false_2 (Z.of_nat 2 < Z.of_nat 3 - 1)) by lia.
  cbn [negb]. rewrite result_of_mk. by eexists.
Qed.

Lemma post_to_suggestion_failed (access_token : string) (srv : Server)
    (gid : Z) (gname message : string) (attachments : option string) (n : nat) :
  (forall k, (k < 3)%nat ->
             exists e, wall_post srv (n + 1 + k)%nat = TransportFailure e) ->
  exists res,
    result_of (post_to_suggestion access_token srv gid gname message attachments n)
      = Ret res
    /\ status res = _classify_error (-1) /\ error_code res = Some (-1).
Proof.
  intros Hfail.
  unfold post_to_suggestion, bind, try_except_VKApiError, result_of.
  cbn beta iota.
  match goal with
  | |- context [_api_request ?tok ?ep ?m ?ps ?k] =>
      destruct (api_request_transport_exhausted tok ep m ps k Hfail)
        as [msg Hraise];
      destruct (_api_request tok ep m ps k) as [[r c0] t0]
  end.
  unfold result_of in Hraise. cbn [fst] in Hraise. subst r.
  cbn. by eexists.
Qed.

Lemma process_groups_used_statuses (access_token : string) (srv : Server)
    (group_identifiers : list string) (message : string)
    (attachments : option string) (on_progress stop : bool) (n : nat) :
  exists results,
    result_of (process_groups access_token srv group_identifiers message
                              attachments on_progress stop n) = Ret results
    /\ Forall used_status results.
Proof.
  rewrite process_groups_run. cbn zeta.
  destruct (resolve_group_ids_returns access_token srv group_identifiers n)
    as (resolved & Hres & _).
  rewrite Hres. destruct resolved as [|item rest].
  - exists []. by rewrite result_of_mk.
  - set (resolved := item :: rest) in *.
    destruct (get_groups_info_returns access_token srv (PyDict.values resolved)
                (count_of (resolve_group_ids access_token srv
                             group_identifiers n)))
      as (groups_info & Hinfo & _).
    rewrite Hinfo, result_of_mk.
    destruct (dispatch_spec access_token srv groups_info
                (length (PyDict.values resolved)) message attachments
                on_progress stop resolved 0 []
                (count_of (get_groups_info access_token srv
                             (PyDict.values resolved)
                             (count_of (resolve_group_ids access_token srv
                                          group_identifiers n)))))
      as (_ & new & Hnew & _ & _ & _ & Hused & _).
    exists new. by rewrite Hnew.
Qed.

(** C10. No operation gives a result the status [NOT_MEMBER] or
    [NETWORK_ERROR]: the classifier never returns either, so neither
    [post_to_suggestion] nor [process_groups] produces one; transport
    failures on all three attempts are raised with code -1, which, like
    every code outside the table, classifies as [UNKNOWN_ERROR]. *)
Theorem unused_statuses_never_assigned (access_token : string) (srv : Server) :
  (forall code, _classify_error code <> NOT_MEMBER
                /\ _classify_error code <> NETWORK_ERROR)
  /\ (forall gid gname message attachments n,
        exists res,
          result_of (post_to_suggestion access_token srv gid gname message
                                        attachments n) = Ret res
          /\ used_status res)
  /\ (forall group_identifiers message attachments on_progress stop n,
        exists results,
          result_of (process_groups access_token srv group_identifiers message
                                    attachments on_progress stop n) = Ret results
          /\ Forall used_status results)
  /\ (forall (A : Type) (endpoint : nat -> HttpOutcome A) method params n,
        (forall k, (k < 3)%nat ->
                   exists e, endpoint (n + 1 + k)%nat = TransportFailure e) ->
        exists msg,
          result_of (_api_request access_token endpoint method params n)
            = Raise (VKApiError (-1) msg))
  /\ _classify_error (-1) = UNKNOWN_ERROR
  /\ (forall gid gname message attachments n,
        (forall k, (k < 3)%nat ->
                   exists e, wall_post srv (n + 1 + k)%nat = TransportFailure e) ->
        exists res,
          result_of (post_to_suggestion access_token srv gid gname message
                                        attachments n) = Ret res
          /\ status res = UNKNOWN_ERROR /\ error_code res = Some (-1)).
Proof.
  split; [apply classify_error_never_unused|].
  split.
  { intros gid gname message attachments n.
    destruct (post_to_suggestion_spec access_token srv gid gname message
                attachments n) as (_ & (res & Hres & _ & _ & Hstatus) & _).
    exists res. split; [done|]. unfold used_status.
    destruct Hstatus as [[-> _]|[[-> _]|(code & -> & _)]]; try done.
    apply classify_error_never_unused. }
  split.
  { intros group_identifiers message attachments on_progress stop n.
    apply process_groups_used_statuses. }
  split; [intros A; apply api_request_transport_exhausted|].
  split; [reflexivity|].
  intros gid gname message attachments n Hfail.
  destruct (post_to_suggestion_failed access_token srv gid gname message
              attachments n Hfail) as (res & Hres & Hstatus & Hcode).
  exists res. split; [done|]. split; [|done]. by rewrite Hstatus.
Qed.

Lemma trace_of_mk {A} (r : outcome A) (n : nat) (t : list event) :
  trace_of (r, n, t) = t.
Proof. reflexivity. Qed.

(** ** Photo upload *)

(** What [upload_photo] returns, phase by phase. *)
Lemma upload_photo_result (access_token : string) (srv : Server)
    (photo_data : list Byte.byte) (filename : string) (n : nat) :
  let first := upload_server_call access_token srv n in
  let n1 := S (count_of first) in
  result_of (upload_photo access_token srv photo_data filename n) =
    Ret (match result_of first with
         | Ret upload_server =>
             if truthy (upload_url upload_server) then
               match upload_host srv n1 with
               | UploadJson body =>
                   if negb (truthy (u_photo body))
                      || bool_decide (u_photo body = Some "[]")
                   then None
                   else
                     match u_photo body, u_server body, u_hash body with
                     | Some photo, Some server, Some hash =>
                         match result_of (save_photo_call access_token srv
                                            photo server hash n1) with
                         | Ret (saved :: _) =>
                             match p_owner_id saved, p_id saved with
                             | Some owner_id, Some photo_id =>
                                 Some (photo_token owner_id photo_id
                                         (p_access_key saved))
                             | _, _ => None
                             end
                         | _ => None
                         end
                     | _, _, _ => None
                     end
               | UploadFailed _ => None
               end
             else None
         | Raise _ => None
         end).
Proof.
  cbn zeta.
  unfold upload_photo, try_except_Exception, upload_server_call, save_photo_call.
  rewrite bind_run.
  destruct (_api_request access_token (photos_getWallUploadServer srv) _ _ n)
    as [[[upload_server|e] n1] t1]; rewrite result_of_mk, ?count_of_mk;
    [|reflexivity].
  cbn zeta. rewrite trace_of_mk.
  destruct (truthy (upload_url upload_server)); cbn [negb]; [|reflexivity].
  unfold bind at 1. unfold _wait_rate_limit at 1.
  unfold bind at 1. unfold upload_post at 1.
  destruct (upload_host srv (S n1)) as [text|body]; [reflexivity|].
  destruct (negb (truthy (u_photo body)) || bool_decide (u_photo body = Some "[]"));
    [reflexivity|].
  destruct (u_photo body) as [photo|]; [|reflexivity].
  destruct (u_server body) as [server|]; [|reflexivity].
  destruct (u_hash body) as [hash|]; [|reflexivity].
  cbn [subscript]. unfold bind at 1 2 3, ret at 1 2 3. cbn beta iota.
  rewrite bind_run.
  destruct (_api_request access_token (photos_saveWallPhoto srv) _ _ (S n1))
    as [[[[|saved rest]|e] n3] t3]; rewrite result_of_mk, ?count_of_mk;
    try reflexivity.
  cbn zeta.
  destruct (p_owner_id saved) as [owner_id|]; [|reflexivity].
  destruct (p_id saved) as [photo_id|]; [|reflexivity].
  cbn [subscript]. unfold bind, ret, photo_token. cbn beta iota.
  destruct (p_access_key saved) as [key|]; cbn [default from_option id].
  - destruct (decide (key = "")) as [->|Hkey].
    + reflexivity.
    + rewrite bool_decide_eq_false_2 by done. reflexivity.
  - reflexivity.
Qed.

(** C8. [upload_photo] always returns and never raises.  It returns [None]
    when the upload-server call fails or gives no upload URL, when the
    multipart POST fails, when the [photo] field of the upload answer is
    missing, empty or [[]], when a forwarded field is missing, and when the
    save call fails or answers with an empty or malformed list; when every
    phase succeeds it returns [photo{owner_id}_{photo_id}], with
    [_{access_key}] appended when an access key is present. *)
Theorem upload_photo_never_raises (access_token : string) (srv : Server)
    (photo_data : list Byte.byte) (filename : string) (n : nat) :
  let first := upload_server_call access_token srv n in
  let n1 := S (count_of first) in
  let returned :=
    result_of (upload_photo access_token srv photo_data filename n) in
  (exists token, returned = Ret token)
  /\ ((exists e, result_of first = Raise e) -> returned = Ret None)
  /\ (forall upload_server,
        result_of first = Ret upload_server ->
        (truthy (upload_url upload_server) = false -> returned = Ret None)
        /\ (truthy (upload_url upload_server) = true ->
            (forall text, upload_host srv n1 = UploadFailed text ->
                          returned = Ret None)
            /\ (forall body,
                  upload_host srv n1 = UploadJson body ->
                  (truthy (u_photo body) = false \/ u_photo body = Some "[]" ->
                   returned = Ret None)
                  /\ (forall photo,
                        u_photo body = Some photo -> photo <> "" ->
                        photo <> "[]" ->
                        (u_server body = None \/ u_hash body = None ->
                         returned = Ret None)
                        /\ (forall server hash,
                              u_server body = Some server ->
                              u_hash body = Some hash ->
                              let saving := save_photo_call access_token srv
                                              photo server hash n1 in
                              ((exists e, result_of saving = Raise e) ->
                               returned = Ret None)
                              /\ (result_of saving = Ret [] ->
                                  returned = Ret None)
                              /\ (forall saved rest,
                                    result_of saving = Ret (saved :: rest) ->
                                    (p_owner_id saved = None
                                     \/ p_id saved = None ->
                                     returned = Ret None)
                                    /\ (forall owner_id photo_id,
                                          p_owner_id saved = Some owner_id ->
                                          p_id saved = Some photo_id ->
                                          returned
                                          = Ret (Some (photo_token owner_id
                                                         photo_id
                                                         (p_access_key saved)))))))))).
Proof.
  cbn zeta. rewrite upload_photo_result. cbn zeta.
  split; [by eexists|].
  split; [by intros [e ->]|].
  intros upload_server ->. split; [by intros ->|].
  intros ->. split; [by intros text ->|].
  intros body ->. split.
  { intros [Hphoto| ->].
    - by rewrite Hphoto.
    - cbn. reflexivity. }
  intros photo Hphoto Hne Hne'.
  assert (Hok : negb (truthy (u_photo body))
                || bool_decide (u_photo body = Some "[]") = false).
  { rewrite Hphoto. cbn. rewrite bool_decide_eq_false_2 by done. cbn.
    apply bool_decide_eq_false_2. congruence. }
  rewrite Hok, Hphoto. split.
  { intros [-> | Hhash]; [done|]. rewrite Hhash. by destruct (u_server body). }
  intros server hash -> ->. split; [by intros [e ->]|].
  split; [by intros ->|].
  intros saved rest ->. split.
  { intros [-> | Hid]; [done|]. rewrite Hid. by destruct (p_owner_id saved). }
  by intros owner_id photo_id -> ->.
Qed.

(** * Further properties *)

(** ** The classifier and the retry class *)

(** The codes [_api_request] retries are exactly the codes
    [_classify_error] labels [RATE_LIMIT]. *)
Theorem throttling_iff_rate_limit (code : Z) :
  is_throttling code = true <-> _classify_error code = RATE_LIMIT.
Proof.
  rewrite classify_error_table.
  unfold is_throttling, classification_table, ERROR_AUTH,
    ERROR_TOO_MANY_REQUESTS_1, ERROR_FLOOD, ERROR_CAPTCHA, ERROR_ACCESS_DENIED,
    ERROR_TOO_MANY_REQUESTS_2, ERROR_WALL_ACCESS_DENIED, ERROR_WALL_DISABLED,
    ERROR_GROUP_ACCESS_DENIED.
  rewrite !orb_true_iff, !bool_decide_eq_true.
  repeat case_decide; split; intros Hx; try done; lia.
Qed.

(** ** Batching *)

Lemma batches_prefix {A} (size : nat) (l : list A) (k : nat) :
  concat ((fun i => take size (drop i l)) <$> ((fun j => j * size)%nat <$> seq 0 k))
  = take (k * size) l.
Proof.
  induction k as [|k IH].
  - done.
  - rewrite seq_S, !fmap_app, concat_app, IH. cbn [fmap list_fmap concat].
    rewrite app_nil_r, take_take_drop. f_equal. lia.
Qed.

Lemma batches_concat {A} (size : nat) (l : list A) :
  (0 < size)%nat -> concat (batches size l) = l.
Proof.
  intros Hsize. unfold batches, range_step.
  rewrite batches_prefix. apply take_ge.
  pose proof (Nat.div_mod (length l + size - 1) size ltac:(lia)) as Hdiv.
  pose proof (Nat.mod_upper_bound (length l + size - 1) size ltac:(lia)).
  nia.
Qed.

(** The batches of a list, in order, make up the list again; none is empty
    and none is longer than the batch size. *)
Theorem batches_partition {A} (size : nat) (l : list A) :
  (0 < size)%nat ->
  concat (batches size l) = l
  /\ Forall (fun b => (0 < length b <= size)%nat) (batches size l).
Proof.
  intros Hsize. split; [by apply batches_concat|].
  unfold batches, range_step.
  - apply Forall_forall. intros b (i & -> & (j & -> & Hj)%list_elem_of_fmap)%list_elem_of_fmap.
    apply elem_of_seq in Hj.
    rewrite length_take, length_drop.
    pose proof (Nat.div_mod (length l + size - 1) size ltac:(lia)) as Hdiv.
    pose proof (Nat.mod_upper_bound (length l + size - 1) size ltac:(lia)).
    nia.
Qed.

Lemma batches_partition_witness :
  concat (batches 2 [1; 2; 3; 4; 5]) = [1; 2; 3; 4; 5]
  /\ Forall (fun b => (0 < length b <= 2)%nat) (batches 2 [1; 2; 3; 4; 5]).
Proof. apply (batches_partition 2 [1; 2; 3; 4; 5]). lia. Defined.

(** ** Per-status counts of the summary *)

Lemma status_value_inj (s1 s2 : PostStatus) :
  status_value s1 = status_value s2 -> s1 = s2.
Proof. destruct s1, s2; cbn; intros H; first [reflexivity | discriminate H]. Qed.

Lemma summary_step_lookup (summary : Summary) (r : PostResult) (s : PostStatus) :
  by_status (summary_step summary r) !! status_value s =
    if decide (status r = s)
    then Some (default 0%nat (by_status summary !! status_value s) + 1)%nat
    else by_status summary !! status_value s.
Proof.
  assert (Hby : by_status (summary_step summary r) =
    <[status_value (status r) :=
        (default 0%nat (by_status summary !! status_value (status r)) + 1)%nat]>
      (by_status summary)).
  { unfold summary_step.
    destruct (by_status summary !! status_value (status r)) as [w|] eqn:Hk;
      case_decide; cbn [by_status]; rewrite ?Hk, ?lookup_insert_eq,
                                      ?insert_insert_eq; reflexivity. }
  rewrite Hby. destruct (decide (status r = s)) as [->|Hne].
  - by rewrite lookup_insert_eq.
  - rewrite lookup_insert_ne; [done|]. intros Heq. by apply Hne, status_value_inj.
Qed.

Lemma summary_step_success (summary : Summary) (r : PostResult) :
  success (summary_step summary r)
  = (success summary + if decide (status r = SUCCESS) then 1 else 0)%nat.
Proof. unfold summary_step. case_decide; cbn; lia. Qed.

Lemma summary_fold_counts (results : list PostResult) :
  forall (summary : Summary) (s : PostStatus),
    let out := foldl summary_step summary results in
    by_status out !! status_value s =
      (if decide (count_status s results = 0%nat)
       then by_status summary !! status_value s
       else Some (default 0%nat (by_status summary !! status_value s)
                  + count_status s results)%nat)
    /\ success out = (success summary + count_status SUCCESS results)%nat.
Proof.
  induction results as [|r results IH]; intros summary s; cbn zeta.
  - cbn. split; [done|lia].
  - cbn [foldl]. destruct (IH (summary_step summary r) s) as [Hby Hok].
    cbn zeta in *. rewrite Hby, Hok, summary_step_lookup, summary_step_success.
    unfold count_status. cbn [List.filter].
    split.
    + destruct (decide (status r = s)) as [Heq|Hne].
      * rewrite (bool_decide_eq_true_2 _ Heq). cbn [length default from_option id].
        repeat match goal with
               | |- context [decide (?a = 0%nat)] => destruct (decide (a = 0%nat))
               end; try lia; f_equal; lia.
      * rewrite (bool_decide_eq_false_2 _ Hne). done.
    + destruct (decide (status r = SUCCESS)) as [Heq|Hne].
      * rewrite (bool_decide_eq_true_2 _ Heq). cbn [length]. lia.
      * rewrite (bool_decide_eq_false_2 _ Hne). lia.
Qed.

(** [by_status] has a key exactly for the statuses that occur, with the
    number of their occurrences; [success] counts the [SUCCESS] results and
    [failed] all the others. *)
Theorem summary_counts_by_status (results : list PostResult) (s : PostStatus) :
  let summary := get_results_summary results in
  by_status summary !! status_value s
    = (if decide (count_status s results = 0%nat) then None
       else Some (count_status s results))
  /\ success summary = count_status SUCCESS results
  /\ failed summary = (length results - count_status SUCCESS results)%nat.
Proof.
  cbn zeta. unfold get_results_summary.
  destruct (summary_fold_counts results (mkSummary (length results) 0 0 ∅) s)
    as [Hby Hok].
  destruct (summary_fold_invariant results (mkSummary (length results) 0 0 ∅))
    as (_ & Hsum & _).
  cbn zeta in *. cbn [by_status success failed] in *.
  rewrite lookup_empty in Hby. cbn [default from_option] in Hby.
  split; [exact Hby|]. split; lia.
Qed.

(** ** More on identifier resolution *)

(** A numeric identifier is mapped to the absolute value of the integer it
    denotes, hence never to a negative id. *)
Theorem numeric_identifier_absolute (access_token : string) (srv : Server)
    (group_identifiers : list string) (n : nat) (resolved : PyDict.t Z)
    (k : string) (v : Z) :
  result_of (resolve_group_ids access_token srv group_identifiers n)
    = Ret resolved ->
  PyDict.get k resolved = Some v ->
  is_numeric k = true ->
  exists z, int k = Some z /\ v = Z.abs z /\ 0 <= v.
Proof.
  intros Hres Hget Hnum.
  destruct (resolve_group_ids_spec access_token srv group_identifiers n)
    as (_ & _ & resolved' & _ & Hres' & _ & _ & _ & Hvals).
  rewrite Hres in Hres'. injection Hres' as <-.
  destruct (Hvals k v Hget Hnum) as (z & Hz & ->).
  exists z. repeat split; [done|lia].
Qed.

Lemma numeric_identifier_absolute_witness :
  exists z, int "-5" = Some z /\ 5 = Z.abs z /\ 0 <= 5.
Proof.
  apply (numeric_identifier_absolute "token" handle_service
           ["https://vk.com/club12"; " -5 "] 0%nat [("12", 12); ("-5", 5)] "-5" 5);
    reflexivity.
Defined.

Lemma first_occurrences_elem (seen l : list string) (x : string) :
  x ∈ first_occurrences seen l <-> x ∈ l /\ x ∉ seen.
Proof.
  revert seen; induction l as [|y l IH]; intros seen; cbn.
  - split; [by intros ?%elem_of_nil|by intros [?%elem_of_nil _]].
  - destruct (decide (y ∈ seen)) as [Hy|Hy].
    + rewrite IH, elem_of_cons. split; [tauto|].
      intros [[->|Hx] Hout]; [done|tauto].
    + rewrite !elem_of_cons, IH, elem_of_cons.
      destruct (decide (x = y)) as [->|Hne]; [tauto|]. tauto.
Qed.

(** Every non-blank input identifier that is numeric after cleaning is a
    key of the returned map, whatever the service answers. *)
Theorem numeric_identifier_always_resolved (access_token : string)
    (srv : Server) (group_identifiers : list string) (n : nat) (s : string) :
  s ∈ group_identifiers -> strip s <> "" -> is_numeric (normalize s) = true ->
  exists resolved v,
    result_of (resolve_group_ids access_token srv group_identifiers n)
      = Ret resolved
    /\ PyDict.get (normalize s) resolved = Some v.
Proof.
  intros Hin Hblank Hnum.
  destruct (resolve_group_ids_spec access_token srv group_identifiers n)
    as (_ & _ & resolved & handles & Hres & Hkeys & _).
  assert (Hkey : normalize s ∈ PyDict.keys resolved).
  { rewrite Hkeys. apply elem_of_app. left. unfold numeric_inputs.
    apply first_occurrences_elem. split; [|by intros ?%elem_of_nil].
    apply list_elem_of_In, List.filter_In. split; [|done].
    apply list_elem_of_In, list_elem_of_fmap. exists s. split; [done|].
    apply list_elem_of_In, List.filter_In. split; [by apply list_elem_of_In|].
    by rewrite bool_decide_eq_false_2. }
  apply pydict_get_keys in Hkey as [v Hv]. by exists resolved, v.
Qed.

Lemma numeric_identifier_always_resolved_witness :
  exists resolved v,
    result_of (resolve_group_ids "token" late_answer_service
                 ["durov"; "public123456"] 0%nat) = Ret resolved
    /\ PyDict.get (normalize "public123456") resolved = Some v.
Proof.
  apply (numeric_identifier_always_resolved "token" late_answer_service
           ["durov"; "public123456"] 0%nat "public123456").
  - apply list_elem_of_further, list_elem_of_here.
  - by vm_compute.
  - reflexivity.
Defined.

Lemma resolve_local_queue (group_identifiers : list string) :
  forall (result : PyDict.t Z) (to_resolve : list string),
    (foldl resolve_step (result, to_resolve) group_identifiers).2
    = to_resolve
      ++ List.filter (fun k => negb (is_numeric k))
           (normalize <$> List.filter
                            (fun s => negb (bool_decide (strip s = "")))
                            group_identifiers).
Proof.
  induction group_identifiers as [|s ids IH]; intros result to_resolve.
  - cbn. by rewrite app_nil_r.
  - cbn [foldl].
    set (keep := fun s => negb (bool_decide (strip s = ""))).
    destruct (decide (strip s = "")) as [Hblank|Hblank].
    + assert (resolve_step (result, to_resolve) s = (result, to_resolve)) as ->.
      { unfold resolve_step. by rewrite decide_True. }
      assert (List.filter keep (s :: ids) = List.filter keep ids) as ->.
      { cbn. unfold keep at 1. by rewrite (bool_decide_eq_true_2 _ Hblank). }
      apply IH.
    + assert (List.filter keep (s :: ids) = s :: List.filter keep ids) as ->.
      { cbn. unfold keep at 1. by rewrite (bool_decide_eq_false_2 _ Hblank). }
      cbn [fmap list_fmap]. fold (normalize s). cbn [List.filter].
      unfold is_numeric at 1.
      destruct (int (normalize s)) as [z|] eqn:Hint; cbn [negb].
      * assert (resolve_step (result, to_resolve) s
                = (PyDict.set (normalize s) (Z.abs z) result, to_resolve)) as ->.
        { unfold resolve_step. rewrite decide_False by done.
          fold (normalize s). by rewrite Hint. }
        apply IH.
      * assert (resolve_step (result, to_resolve) s
                = (result, to_resolve ++ [normalize s])) as ->.
        { unfold resolve_step. rewrite decide_False by done.
          fold (normalize s). by rewrite Hint. }
        rewrite IH, <- app_assoc. done.
Qed.

(** Identifiers that are all numeric (or blank) are resolved locally: no
    request is sent and the request counter does not move. *)
Theorem numeric_only_no_request (access_token : string) (srv : Server)
    (group_identifiers : list string) (n : nat) :
  Forall (fun s => strip s = "" \/ is_numeric (normalize s) = true)
         group_identifiers ->
  resolve_group_ids access_token srv group_identifiers n
  = (Ret (resolve_local group_identifiers).1, n, []).
Proof.
  intros Hall. unfold resolve_group_ids.
  destruct (resolve_local group_identifiers) as [result to_resolve] eqn:Hlocal.
  cbn [fst].
  assert (to_resolve = []) as ->; [|reflexivity].
  change to_resolve with (result, to_resolve).2. rewrite <- Hlocal.
  unfold resolve_local. rewrite resolve_local_queue. cbn [app].
  clear Hlocal.
  induction Hall as [|s ids Hs Hall IH]; [done|].
  cbn [List.filter]. destruct Hs as [Hblank|Hnum].
  - rewrite (bool_decide_eq_true_2 _ Hblank). cbn [negb]. exact IH.
  - destruct (bool_decide (strip s = "")); cbn [negb]; [exact IH|].
    cbn [fmap list_fmap List.filter]. fold (normalize s). rewrite Hnum.
    cbn [negb]. exact IH.
Qed.

Lemma numeric_only_no_request_witness :
  resolve_group_ids "token" handle_service ["club1"; "  "; "-2"; "@3"] 7%nat
  = (Ret (resolve_local ["club1"; "  "; "-2"; "@3"]).1, 7%nat, []).
Proof.
  apply numeric_only_no_request.
  repeat constructor; first [by left; vm_compute | by right; vm_compute].
Defined.

(** An answer without any group: an error, or a payload with no list or
    an empty list of groups. *)
Lemma resolve_batches_unanswered (access_token : string) (srv : Server)
    (bs : list (list string)) :
  (forall m payload, groups_getById srv m = Response payload ->
                     groups_list payload = None \/ groups_list payload = Some []) ->
  forall (result : PyDict.t Z) (n : nat),
    result_of (resolve_batches access_token srv bs result n) = Ret result.
Proof.
  intros Hsrv. induction bs as [|batch rest IH]; intros result n; [done|].
  cbn [resolve_batches]. rewrite bind_run.
  assert (Hstep : forall k,
    result_of
      (try_except_VKApiError
         (do response <- _api_request access_token (groups_getById srv)
                           "groups.getById"
                           [("group_ids", VStr (str_join "," batch))];
          match groups_list response with
          | Some groups => ret (match_groups groups batch result)
          | None => ret result
          end)
         (fun _ _ => do_ _log WARNING; ret result) k) = Ret result).
  { intros k. unfold try_except_VKApiError. rewrite bind_run.
    pose proof (api_request_spec access_token (groups_getById srv)
                  "groups.getById" [("group_ids", VStr (str_join "," batch))] k)
      as (_ & Hres & _).
    destruct (result_of (_api_request _ _ _ _ k)) as [payload|[code msg| |]];
      cbn in Hres; try done.
    destruct Hres as (m & _ & Hm).
    destruct (Hsrv m payload Hm) as [-> | ->]; reflexivity. }
  rewrite Hstep. cbn zeta. rewrite result_of_mk. apply IH.
Qed.

(** When the service answers no lookup with a group (it fails, or knows
    none of the handles), every handle is dropped and the map holds the
    numeric identifiers only. *)
Theorem unanswered_handles_dropped (access_token : string) (srv : Server)
    (group_identifiers : list string) (n : nat) :
  (forall m payload, groups_getById srv m = Response payload ->
                     groups_list payload = None \/ groups_list payload = Some []) ->
  exists resolved,
    result_of (resolve_group_ids access_token srv group_identifiers n)
      = Ret resolved
    /\ PyDict.keys resolved = numeric_inputs group_identifiers
    /\ resolved = (resolve_local group_identifiers).1.
Proof.
  intros Hsrv. unfold resolve_group_ids.
  pose proof (resolve_local_spec group_identifiers) as (Hkeys & _).
  destruct (resolve_local group_identifiers) as [result to_resolve].
  cbn [fst snd] in *. exists result.
  by rewrite resolve_batches_unanswered.
Qed.

Lemma unanswered_handles_dropped_witness :
  exists resolved,
    result_of (resolve_group_ids "token"
                 (mkServer (fun _ => ProviderError (Some 100) None)
                    (wall_post handle_service)
                    (photos_getWallUploadServer handle_service)
                    (photos_saveWallPhoto handle_service)
                    (upload_host handle_service) (uuid4 handle_service))
                 ["123456"; "https://vk.com/@somehandle"; "not_a_real_handle"]
                 0%nat) = Ret resolved
    /\ PyDict.keys resolved
       = numeric_inputs ["123456"; "https://vk.com/@somehandle"; "not_a_real_handle"]
    /\ resolved
       = (resolve_local ["123456"; "https://vk.com/@somehandle";
                         "not_a_real_handle"]).1.
Proof.
  apply unanswered_handles_dropped. intros m payload Hm. discriminate Hm.
Defined.

(** ** More on the API client *)

(** An answer that arrives after retried attempts is returned as it is;
    the client has then sent one request per attempt and advanced its
    request counter by as much. *)
Theorem api_request_success_after_retries (access_token : string) {A : Type}
    (endpoint : nat -> HttpOutcome A) (method : string)
    (params : list (string * value)) (n k : nat) (payload : A) :
  (k < 3)%nat ->
  (forall j, (j < k)%nat -> retried (endpoint (n + 1 + j)%nat) = true) ->
  endpoint (n + 1 + k)%nat = Response payload ->
  let run := _api_request access_token endpoint method params n in
  result_of run = Ret payload
  /\ count_of run = (n + 1 + k)%nat
  /\ requests (trace_of run) = S k.
Proof.
  intros Hk Hearlier Hep. cbn zeta. unfold _api_request, _api_request_with.
  set (ps := params ++ _).
  assert (Hfirst : forall j, (j < k)%nat -> retried (endpoint (S (n + j))) = true).
  { intros j Hj. replace (S (n + j)) with (n + 1 + j)%nat by lia. by apply Hearlier. }
  replace (n + 1 + k)%nat with (S (n + k)) in Hep by lia.
  destruct k as [|[|[|k]]]; [| | |lia].
  - rewrite Nat.add_0_r in Hep. rewrite attempts_step, Hep.
    repeat split. cbn. lia.
  - destruct (attempts_retry endpoint method ps 3 0 2 n) as [w ->];
      [ rewrite <- (Nat.add_0_r n); apply Hfirst; lia | lia | ].
    replace (n + 1)%nat with (S n) in Hep by lia.
    rewrite attempts_step, Hep. repeat split. cbn. lia.
  - destruct (attempts_retry endpoint method ps 3 0 2 n) as [w ->];
      [ rewrite <- (Nat.add_0_r n); apply Hfirst; lia | lia | ].
    destruct (attempts_retry endpoint method ps 3 1 1 (S n)) as [w' ->];
      [ replace (S (S n)) with (S (n + 1)) by lia; apply Hfirst; lia | lia | ].
    replace (S (n + 2))%nat with (S (S (S n))) in Hep by lia.
    rewrite attempts_step, Hep. repeat split. cbn. lia.
Qed.

Lemma api_request_success_after_retries_witness :
  let run := _api_request "token"
               (fun m => match m with
                         | 1%nat => ProviderError (Some ERROR_FLOOD) None
                         | 2%nat => TransportFailure "reset"
                         | _ => Response (mkPostPayload (Some 42))
                         end) "wall.post" [] 0%nat in
  result_of run = Ret (mkPostPayload (Some 42))
  /\ count_of run = 3%nat /\ requests (trace_of run) = 3%nat.
Proof.
  apply (api_request_success_after_retries "token" _ "wall.post" [] 0%nat 2%nat).
  - lia.
  - intros [|[|j]] Hj; [reflexivity|reflexivity|lia].
  - reflexivity.
Defined.

(** A transport failure before the last attempt is followed by a sleep of
    2 seconds and one more request; on the last attempt it is raised as
    [VKApiError] with code -1. *)
Theorem api_request_transport_policy (access_token : string) {A : Type}
    (endpoint : nat -> HttpOutcome A) (method : string)
    (params : list (string * value)) (n k : nat) (e : string) :
  (k < 3)%nat ->
  (forall j, (j < k)%nat -> retried (endpoint (n + 1 + j)%nat) = true) ->
  endpoint (n + 1 + k)%nat = TransportFailure e ->
  let run := _api_request access_token endpoint method params n in
  ((k < 2)%nat ->
   exists before after,
     trace_of run = before ++ EvLog WARNING :: EvSleep 2 :: after
     /\ requests before = S k /\ (1 <= requests after)%nat)
  /\ (k = 2%nat ->
      result_of run = Raise (VKApiError (-1) ("Сетевая ошибка: " +:+ e))
      /\ requests (trace_of run) = 3%nat).
Proof.
  intros Hk Hearlier Hep. cbn zeta. unfold _api_request, _api_request_with.
  set (ps := params ++ _).
  assert (Hfirst : forall j, (j < k)%nat -> retried (endpoint (S (n + j))) = true).
  { intros j Hj. replace (S (n + j)) with (n + 1 + j)%nat by lia. by apply Hearlier. }
  replace (n + 1 + k)%nat with (S (n + k)) in Hep by lia.
  destruct k as [|[|[|k]]]; [| | |lia].
  - rewrite Nat.add_0_r in Hep. rewrite attempts_step, Hep. cbn zeta.
    rewrite (bool_decide_eq_true_2 (Z.of_nat 0 < Z.of_nat 3 - 1)) by lia.
    cbn [negb]. split; [|lia]. intros _.
    exists [EvRequest method ps], (trace_of (attempts endpoint method ps 3 1 2 (S n))).
    split; [reflexivity|]. split; [reflexivity|]. apply attempts_first_request.
  - destruct (attempts_retry endpoint method ps 3 0 2 n) as [w ->];
      [ rewrite <- (Nat.add_0_r n); apply Hfirst; lia | lia | ].
    replace (n + 1)%nat with (S n) in Hep by lia.
    rewrite attempts_step, Hep. cbn zeta.
    rewrite (bool_decide_eq_true_2 (Z.of_nat 1 < Z.of_nat 3 - 1)) by lia.
    cbn [negb]. split; [|lia]. intros _.
    exists [EvRequest method ps; EvLog WARNING; EvSleep w; EvRequest method ps],
           (trace_of (attempts endpoint method ps 3 2 1 (S (S n)))).
    split; [reflexivity|]. split; [reflexivity|]. apply attempts_first_request.
  - destruct (attempts_retry endpoint method ps 3 0 2 n) as [w ->];
      [ rewrite <- (Nat.add_0_r n); apply Hfirst; lia | lia | ].
    destruct (attempts_retry endpoint method ps 3 1 1 (S n)) as [w' ->];
      [ replace (S (S n)) with (S (n + 1)) by lia; apply Hfirst; lia | lia | ].
    replace (S (n + 2))%nat with (S (S (S n))) in Hep by lia.
    rewrite attempts_step, Hep. cbn zeta.
    rewrite (bool_decide_eq_false_2 (Z.of_nat 2 < Z.of_nat 3 - 1)) by lia.
    cbn [negb]. split; [lia|]. intros _. split; reflexivity.
Qed.

Lemma api_request_transport_policy_witness :
  let run := _api_request "token"
               (fun _ => @TransportFailure PostPayload "timeout")
               "wall.post" [] 0%nat in
  ((2 < 2)%nat ->
   exists before after,
     trace_of run = before ++ EvLog WARNING :: EvSleep 2 :: after
     /\ requests before = 3%nat /\ (1 <= requests after)%nat)
  /\ (2%nat = 2%nat ->
      result_of run = Raise (VKApiError (-1) ("Сетевая ошибка: " +:+ "timeout"))
      /\ requests (trace_of run) = 3%nat).
Proof.
  apply (api_request_transport_policy "token" _ "wall.post" [] 0%nat 2%nat "timeout").
  - lia.
  - intros j _. reflexivity.
  - reflexivity.
Defined.

(** For any [retry_count]: at most [retry_count] requests are sent, the
    request counter advances by exactly the number of requests, nothing but
    [VKApiError] is ever raised, and with [retry_count = 0] the call raises
    code -1 without sending anything. *)
Theorem api_request_with_bounds (access_token : string) {A : Type}
    (endpoint : nat -> HttpOutcome A) (method : string)
    (params : list (string * value)) (retry_count n : nat) :
  let run := _api_request_with access_token endpoint method params retry_count n in
  (requests (trace_of run) <= retry_count)%nat
  /\ count_of run = (n + requests (trace_of run))%nat
  /\ ((exists payload, result_of run = Ret payload)
      \/ (exists code msg, result_of run = Raise (VKApiError code msg)))
  /\ (retry_count = 0%nat ->
      run = (Raise (VKApiError (-1) "Превышено количество попыток"), n, [])).
Proof.
  cbn zeta. unfold _api_request_with. set (ps := params ++ _).
  pose proof (attempts_count endpoint method ps retry_count retry_count 0 n) as Hc.
  pose proof (attempts_shape endpoint method ps retry_count retry_count 0 n) as Hs.
  cbn zeta in *.
  split; [lia|]. split; [lia|]. split; [exact Hs|].
  intros ->. reflexivity.
Qed.

(** ** More on the metadata lookup *)

(** A failed lookup never replaces what earlier batches stored: it adds the
    placeholder for the ids of its batch that have no entry yet and changes
    nothing else. *)
Theorem failed_lookup_keeps_entries (access_token : string) (srv : Server)
    (batch : list Z) (result : gmap Z GroupInfo) (n : nat) (code : Z)
    (msg : string) :
  result_of (groups_lookup access_token srv batch n) = Raise (VKApiError code msg) ->
  exists result',
    result_of (fetch_batch access_token srv batch result n) = Ret result'
    /\ forall gid,
         result' !! gid =
           match result !! gid with
           | Some info => Some info
           | None => if decide (gid ∈ batch) then Some (placeholder gid) else None
           end.
Proof.
  intros Hfail. rewrite (fetch_batch_failed _ _ _ _ _ code msg Hfail).
  eexists. split; [reflexivity|]. apply store_placeholders_lookup.
Qed.

Lemma failed_lookup_keeps_entries_witness :
  exists result',
    result_of (fetch_batch "token" late_answer_service [7; 8]
                 {[ 7 := mkGroupInfo 7 "Seven" "seven" true true 0 true ]} 0%nat)
      = Ret result'
    /\ forall gid,
         result' !! gid =
           match ({[ 7 := mkGroupInfo 7 "Seven" "seven" true true 0 true ]}
                    : gmap Z GroupInfo) !! gid with
           | Some info => Some info
           | None => if decide (gid ∈ [7; 8]) then Some (placeholder gid) else None
           end.
Proof.
  apply (failed_lookup_keeps_entries "token" late_answer_service [7; 8] _ 0%nat
           100 "One of the parameters is invalid").
  reflexivity.
Defined.

Lemma groups_lookup_fails (access_token : string) (srv : Server)
    (batch : list Z) (n : nat) :
  (forall m payload, groups_getById srv m <> Response payload) ->
  exists code msg,
    result_of (groups_lookup access_token srv batch n) = Raise (VKApiError code msg).
Proof.
  intros Hdown.
  pose proof (api_request_spec access_token (groups_getById srv) "groups.getById"
                [("group_ids", VStr (str_join "," (str <$> batch)));
                 ("fields", VStr "can_post,can_suggest,is_closed,is_member,wall")]
                n) as (_ & Hres & _).
  fold (groups_lookup access_token srv batch) in Hres.
  destruct (result_of (groups_lookup access_token srv batch n))
    as [payload|[code msg| |]]; cbn in Hres; try done.
  - destruct Hres as (m & _ & Hm). by destruct (Hdown m payload).
  - by exists code, msg.
Qed.

Lemma fetch_batches_down (access_token : string) (srv : Server)
    (bs : list (list Z)) :
  (forall m payload, groups_getById srv m <> Response payload) ->
  forall (result : gmap Z GroupInfo) (n : nat),
    exists result',
      result_of (fetch_batches access_token srv bs result n) = Ret result'
      /\ forall gid,
           result' !! gid =
             match result !! gid with
             | Some info => Some info
             | None =>
                 if decide (gid ∈ concat bs) then Some (placeholder gid) else None
             end.
Proof.
  intros Hdown. induction bs as [|batch rest IH]; intros result n.
  - exists result. split; [done|]. intros gid. cbn.
    rewrite decide_False by by intros ?%elem_of_nil. by destruct (result !! gid).
  - destruct (groups_lookup_fails access_token srv batch n Hdown)
      as (code & msg & Hfail).
    cbn [fetch_batches concat]. rewrite bind_run.
    rewrite (fetch_batch_failed _ _ _ _ _ code msg Hfail).
    rewrite result_of_mk, count_of_mk. cbn zeta. rewrite result_of_mk.
    destruct (IH (store_placeholders batch result)
                (count_of (groups_lookup access_token srv batch n)))
      as (result' & Hres & Hlook).
    exists result'. split; [done|]. intros gid.
    rewrite Hlook, store_placeholders_lookup.
    destruct (result !! gid) as [info|]; [done|].
    destruct (decide (gid ∈ batch)) as [Hin|Hout].
    + rewrite decide_True; [done|]. apply elem_of_app. by left.
    + destruct (decide (gid ∈ concat rest)) as [Hin'|Hout'].
      * rewrite decide_True; [done|]. apply elem_of_app. by right.
      * rewrite decide_False; [done|]. by intros [?|?]%elem_of_app.
Qed.

(** When no lookup is ever answered (the service is down or rejects every
    call), [get_groups_info] returns exactly the placeholders of the ids it
    was given. *)
Theorem service_down_placeholders (access_token : string) (srv : Server)
    (group_ids : list Z) (n : nat) :
  (forall m payload, groups_getById srv m <> Response payload) ->
  exists final,
    result_of (get_groups_info access_token srv group_ids n) = Ret final
    /\ forall gid,
         final !! gid
         = if decide (gid ∈ group_ids) then Some (placeholder gid) else None.
Proof.
  intros Hdown. unfold get_groups_info.
  destruct (fetch_batches_down access_token srv (batches 500 group_ids) Hdown ∅ n)
    as (final & Hres & Hlook).
  exists final. split; [done|]. intros gid.
  rewrite Hlook, lookup_empty, batches_concat by lia. done.
Qed.

Lemma service_down_placeholders_witness :
  exists final,
    result_of (get_groups_info "token"
                 (mkServer (fun _ => TransportFailure "connection refused")
                    (wall_post handle_service)
                    (photos_getWallUploadServer handle_service)
                    (photos_saveWallPhoto handle_service)
                    (upload_host handle_service) (uuid4 handle_service))
                 [1; 2; 3] 0%nat) = Ret final
    /\ forall gid,
         final !! gid
         = if decide (gid ∈ [1; 2; 3]) then Some (placeholder gid) else None.
Proof.
  apply service_down_placeholders. intros m payload Hm. discriminate Hm.
Defined.
